(** * xtransmit route: the forwarding loop and the reconnecting orchestrator

    A shallow embedding of [src/xtransmit/route.cpp]: the function [route]
    (one direction of the relay) and the function [run] (connection set-up,
    optional backward direction, statistics registration, reconnect loop).

    The sockets, the statistics writer, the connection factory, the steady
    clock and the cancellation flag are collaborators of the code.  They are
    modelled as a scripted environment: every call that the code makes to one
    of them consumes the next scripted reply, takes the scripted amount of
    time, and is recorded as an [event].  A call whose script is exhausted
    never returns ([Blocked]).  All functions are executable. *)

From stdpp Require Import gmap strings list.
From Stdlib Require Import ZArith Strings.Byte.

Open Scope Z_scope.

Set Warnings "-clear-no-such-hyp".

(** ** Exceptions and ways a call can end *)

(** [catch (const socket::exception&)] in [run] handles the socket layer's
    exception class only; anything else passes through it. *)
Inductive exn : Type :=
| SocketException (what : string)
| OtherException (what : string).

(** The two places of [run] whose behaviour the C++ standard leaves undefined. *)
Inductive undefined_behaviour : Type :=
| WaitOnInvalidFuture      (* [wait()] on a future without shared state *)
| NullStatsDereference.    (* [stats->...] through a null [unique_ptr] *)

Inductive outcome : Type :=
| Returned                           (* the call returned normally *)
| Raised (e : exn)                   (* an exception left the call *)
| Blocked                            (* the call never returns *)
| Undefined (u : undefined_behaviour).

(** ** The environment's replies *)

(** [took] is the time the call spent, in ticks of the steady clock. *)
Inductive read_reply : Type :=
| ReadOk (payload : list byte) (took : N)
| ReadThrows (e : exn) (took : N).

(** [bytes_sent] is the [int] that [write] returns. *)
Inductive write_reply : Type :=
| WriteOk (bytes_sent : Z) (took : N)
| WriteThrows (e : exn) (took : N).

(** Modelled from the spec: the Endpoint of section 3 ([socket::isocket],
    declared in srt_socket.hpp and udp_socket.hpp, which are not part of the
    sources at hand): [read(buffer, timeout) -> bytesRead],
    [write(buffer) -> bytesWritten] and a stable [id].  An endpoint carries
    the replies it will give to successive reads and to successive writes. *)
Record endpoint : Type := Endpoint {
  id : Z;
  reads : list read_reply;
  writes : list write_reply
}.

(** ** Events *)

Inductive side : Type := Src | Dst.

Inductive log_msg : Type :=
| LogStarted (desc : string)
| LogZeroRead (desc : string)
| LogWriteMismatch (desc : string) (bytes_sent : Z) (bytes_read : Z)
| LogError (what : string).

(** Modelled from the spec: the Statistics Sampler of section 4.3
    ([socket::stats_writer], declared in socket_stats.hpp): it is constructed
    from a path and an interval. *)
Record stats_writer : Type := StatsWriter {
  stats_path : string;
  stats_interval_ms : Z
}.

Inductive event : Type :=
| EvNow (tnow : Z)                                   (* steady_clock::now() at the top of an iteration *)
| EvSleepUntil (deadline woke : Z)                   (* this_thread::sleep_until *)
| EvStatsNew (sw : stats_writer)                     (* new socket::stats_writer(...) *)
| EvStatsDelete                                      (* the unique_ptr deletes the writer *)
| EvConnect (sd : side) (at_time : Z) (slot_before : option Z) (got : exn + Z)
| EvSlotReset (sd : side)                            (* src_sock.reset() / dst_sock.reset() *)
| EvAddSocket (sock : Z)                             (* stats->add_socket *)
| EvRemoveSocket (stats : option stats_writer) (sock : Z)  (* stats->remove_socket, with the handle it goes through *)
| EvAsync (desc : string)                            (* ::async(::launch::async, route, ...) *)
| EvWait (valid : bool)                              (* route_bkwd.wait() *)
| EvJoin                                             (* ~future() of an async future that was not yet ready *)
| EvRead (sock : Z) (timeout_ms : Z) (got : exn + list byte)
| EvWrite (sock : Z) (data : list byte) (got : exn + Z)
| EvLog (m : log_msg).

(** What one thread did: how it ended, what it did in order, and when. *)
Record execution : Type := Exec {
  exit : outcome;
  events : list event;
  ends_at : Z
}.

Definition after (evs : list event) (x : execution) : execution :=
  Exec (exit x) (evs ++ events x) (ends_at x).

(** ** Configuration *)

(** Modelled from the spec: [config] is declared in route.hpp; the fields
    are those of RouteConfig in section 6 ([messageSize: positive integer],
    [statsIntervalMs: non-negative integer]), under the names route.cpp uses. *)
Record config : Type := Config {
  message_size : nat;
  bidir : bool;
  reconnect : bool;
  stats_file : string;
  stats_freq_ms : Z
}.

(** ** Integer conversions *)

(** [bytes_sent != bytes_read] compares an [int] with a [size_t]: the [int]
    is converted to the unsigned 64-bit type first. *)
Definition to_size_t (n : Z) : Z := n mod 2 ^ 64.

Definition int_min : Z := - 2 ^ 31.
Definition int_max : Z := 2 ^ 31 - 1.

(** ** The forwarding loop *)

Module Route.

Section WithFlag.

(** The value of the atomic flag [force_break] as a function of the steady
    clock.  The code only loads it. *)
Variable force_break : Z → bool.

Section Loop.

Variables (sock_src sock_dst : Z) (desc : string).

(** The [while (!force_break)] loop of [route], by recursion on the replies
    that [sock_src.read] is going to give.  [buffer] is the [vector<char>]
    allocated before the loop and reused by every iteration; [now] is
    the clock. *)
Fixpoint route_loop (src_reads : list read_reply) (dst_writes : list write_reply)
    (buffer : list byte) (now : Z) : execution :=
  if force_break now then Exec Returned [] now
  else
    match src_reads with
    | [] => Exec Blocked [] now
    | ReadThrows e took :: _ =>
        Exec (Raised e) [EvRead sock_src (-1) (inl e)] (now + Z.of_N took)
    | ReadOk payload took :: src_reads =>
        (* read(mutable_buffer(buffer.data(), buffer.size()), -1) *)
        let received := take (length buffer) payload in
        let buffer := received ++ drop (length received) buffer in
        let bytes_read := Z.of_nat (length received) in
        let now := now + Z.of_N took in
        let ev_read := EvRead sock_src (-1) (inr received) in
        if bytes_read =? 0 then
          after [ev_read; EvLog (LogZeroRead desc)]
                (route_loop src_reads dst_writes buffer now)
        else
          (* write(const_buffer(buffer.data(), bytes_read)) *)
          let data := take (Z.to_nat bytes_read) buffer in
          match dst_writes with
          | [] => Exec Blocked [ev_read] now
          | WriteThrows e took :: _ =>
              Exec (Raised e) [ev_read; EvWrite sock_dst data (inl e)]
                   (now + Z.of_N took)
          | WriteOk bytes_sent took :: dst_writes =>
              let now := now + Z.of_N took in
              let ev_write := EvWrite sock_dst data (inr bytes_sent) in
              if negb (to_size_t bytes_sent =? bytes_read) then
                after [ev_read; ev_write;
                       EvLog (LogWriteMismatch desc bytes_sent bytes_read)]
                      (route_loop src_reads dst_writes buffer now)
              else
                after [ev_read; ev_write]
                      (route_loop src_reads dst_writes buffer now)
          end
    end.

End Loop.

(** [route(src, dst, cfg, desc, force_break)]. *)
Definition route (src dst : endpoint) (cfg : config) (desc : string) (now : Z)
    : execution :=
  let buffer := replicate (message_size cfg) x00 in
  after [EvLog (LogStarted desc)]
        (route_loop (id src) (id dst) desc (reads src) (writes dst) buffer now).

(** ** The orchestrator *)

(** [steady_clock] ticks are nanoseconds: [tnow + seconds(1)] adds this many
    ticks.  Time points are unbounded integers here. *)
Definition seconds (n : Z) : Z := n * 1000000000.

(** [src_sock] and [dst_sock] of [run]: each either holds a listening
    socket (its id) or is empty. *)
Record slots : Type := Slots {
  src_sock : option Z;
  dst_sock : option Z
}.

(** What the Connection Factory is going to do when it is called. *)
Inductive conn_reply : Type :=
| Connects (ep : endpoint) (took : N)                (* caller-style address *)
| Accepts (listener : Z) (ep : endpoint) (took : N)  (* listener-style address *)
| Fails (e : exn) (took : N).

(** What a call of the Connection Factory gives back. *)
Record connection : Type := Connection {
  got : exn + endpoint;        (* the endpoint, or the exception raised *)
  slot_after : option Z;       (* the listening socket left in the slot *)
  spent : N                    (* the time the call took *)
}.

(** Modelled from the spec: the Connection Factory of section 4.4
    ([create_connection], declared in misc.hpp): it connects outbound for
    client-style addresses, or accepts on and retains a listener for
    server-style addresses, and raises if no candidate can be connected.
    A listener already in the slot is the one accepted on; otherwise the
    listener of the reply is opened and stored. *)
Definition create_connection (reply : conn_reply) (listening_sock : option Z)
    : connection :=
  match reply with
  | Connects ep took => Connection (inr ep) listening_sock took
  | Accepts listener ep took =>
      Connection (inr ep) (Some (default listener listening_sock)) took
  | Fails e took => Connection (inl e) listening_sock took
  end.

Definition id_of (got : exn + endpoint) : exn + Z :=
  match got with inl e => inl e | inr ep => inr (id ep) end.

(** The environment of one iteration of the [do ... while] loop of [run]:
    by how much [sleep_until] oversleeps, should it be called, and what the
    two calls of [create_connection] are going to do. *)
Record round : Type := Round {
  lag : N;
  dst_reply : conn_reply;
  src_reply : conn_reply
}.

(** What lines 96 to 100 leave behind. *)
Record pacing : Type := Pacing {
  paced : list event;
  resumed_at : Z;        (* the clock when the connections are attempted *)
  deadline : Z           (* the new [next_reconnect] *)
}.

(** Lines 96 to 100: sample the clock, sleep until [next_reconnect] if it
    lies ahead, and set the next deadline from the sample. *)
Definition backoff (lag : N) (next_reconnect now : Z) : pacing :=
  let tnow := now in
  if tnow <? next_reconnect then
    let woke := next_reconnect + Z.of_N lag in
    Pacing [EvNow tnow; EvSleepUntil next_reconnect woke] woke (tnow + seconds 1)
  else
    Pacing [EvNow tnow] now (tnow + seconds 1).

(** Line 102. *)
Definition write_stats (cfg : config) : bool :=
  bool_decide (stats_file cfg ≠ EmptyString) && (0 <? stats_freq_ms cfg).

(** Lines 104 to 106. *)
Definition new_stats (cfg : config) : option stats_writer :=
  if write_stats cfg
  then Some (StatsWriter (stats_file cfg) (stats_freq_ms cfg))
  else None.

Definition created (stats : option stats_writer) : list event :=
  match stats with Some sw => [EvStatsNew sw] | None => [] end.

Definition delete_stats (stats : option stats_writer) : list event :=
  match stats with Some _ => [EvStatsDelete] | None => [] end.

(** What one pass through the [try] block leaves behind. *)
Record iteration : Type := Iteration {
  main : execution;             (* the thread of [run] *)
  backward : option execution;  (* the thread started by [::async], if any *)
  slots_after : slots;
  next_reconnect_after : Z
}.

(** An exception leaves the [try] block.  If [route_bkwd] holds a future
    obtained from [::async], its destructor blocks until its thread has
    exited; then the statistics writer is deleted. *)
Definition unwind (route_bkwd : option execution) (stats : option stats_writer)
    (e : exn) (now : Z) : execution :=
  match route_bkwd with
  | None => Exec (Raised e) (delete_stats stats) now
  | Some b =>
      match exit b with
      | Blocked => Exec Blocked [EvJoin] now
      | _ => Exec (Raised e) (EvJoin :: delete_stats stats) (Z.max now (ends_at b))
      end
  end.

(** Lines 129 to 131 and the end of the block.  Only the first
    [remove_socket] is under the [if]. *)
Definition deregister (stats : option stats_writer) (src dst : endpoint) (now : Z)
    : execution :=
  let removed_src :=
    match stats with Some _ => [EvRemoveSocket stats (id src)] | None => [] end in
  match stats with
  | Some _ =>
      Exec Returned
           (removed_src ++ [EvRemoveSocket stats (id dst)] ++ delete_stats stats) now
  | None =>
      Exec (Undefined NullStatsDereference)
           (removed_src ++ [EvRemoveSocket stats (id dst)]) now
  end.

(** Line 127, [route_bkwd.wait()], and what follows it. *)
Definition wait_and_deregister (route_bkwd : option execution)
    (stats : option stats_writer) (src dst : endpoint) (now : Z) : execution :=
  match route_bkwd with
  | None => Exec (Undefined WaitOnInvalidFuture) [EvWait false] now
  | Some b =>
      match exit b with
      | Blocked => Exec Blocked [EvWait true] now
      | _ => after [EvWait true] (deregister stats src dst (Z.max now (ends_at b)))
      end
  end.

(** Lines 122 to 124: the backward loop, on a thread of its own, if
    [cfg.bidir]; a future without shared state otherwise. *)
Definition start_backward (cfg : config) (src dst : endpoint) (now : Z)
    : option execution :=
  if bidir cfg then Some (route dst src cfg "[DST->SRC]" now) else None.

Definition started (route_bkwd : option execution) : list event :=
  match route_bkwd with Some _ => [EvAsync "[DST->SRC]"] | None => [] end.

(** Lines 122 to 131: start the backward loop if [cfg.bidir], run the
    forward loop on this thread, wait for the backward loop, deregister. *)
Definition forward_both (cfg : config) (stats : option stats_writer)
    (src dst : endpoint) (now : Z) : execution :=
  let route_bkwd := start_backward cfg src dst now in
  let fwd := route src dst cfg "[SRC->DST]" now in
  after (started route_bkwd ++ events fwd)
    match exit fwd with
    | Returned => wait_and_deregister route_bkwd stats src dst (ends_at fwd)
    | Raised e => unwind route_bkwd stats e (ends_at fwd)
    | Blocked => Exec Blocked [] (ends_at fwd)
    | Undefined u => Exec (Undefined u) [] (ends_at fwd)
    end.

(** Lines 112 to 114: [if (!cfg.reconnect) src_sock.reset();] and then
    [dst_sock.reset();], which is not under the [if]. *)
Definition reset_slots (cfg : config) (sl : slots) : list event * slots :=
  let '(resets, sl) :=
    if negb (reconnect cfg)
    then ([EvSlotReset Src], Slots None (dst_sock sl))
    else ([], sl) in
  (resets ++ [EvSlotReset Dst], Slots (src_sock sl) None).

(** Lines 116 to 120. *)
Definition add_sockets (stats : option stats_writer) (src dst : endpoint)
    : list event :=
  match stats with
  | Some _ => [EvAddSocket (id src); EvAddSocket (id dst)]
  | None => []
  end.

(** The body of the [try] block, lines 96 to 131. *)
Definition try_block (cfg : config) (r : round) (sl : slots)
    (next_reconnect now : Z) : iteration :=
  let pace := backoff (lag r) next_reconnect now in
  let now := resumed_at pace in
  let next_reconnect := deadline pace in
  let stats := new_stats cfg in
  (* shared_sock dst = create_connection(parsed_dst_urls, dst_sock); *)
  let conn_dst := create_connection (dst_reply r) (dst_sock sl) in
  let ev_dst := EvConnect Dst now (dst_sock sl) (id_of (got conn_dst)) in
  let sl := Slots (src_sock sl) (slot_after conn_dst) in
  let now := now + Z.of_N (spent conn_dst) in
  match got conn_dst with
  | inl e =>
      Iteration (after (paced pace ++ created stats ++ [ev_dst])
                       (unwind None stats e now))
                None sl next_reconnect
  | inr dst =>
      (* shared_sock src = create_connection(parsed_src_urls, src_sock); *)
      let conn_src := create_connection (src_reply r) (src_sock sl) in
      let ev_src := EvConnect Src now (src_sock sl) (id_of (got conn_src)) in
      let sl := Slots (slot_after conn_src) (dst_sock sl) in
      let now := now + Z.of_N (spent conn_src) in
      match got conn_src with
      | inl e =>
          Iteration (after (paced pace ++ created stats ++ [ev_dst; ev_src])
                           (unwind None stats e now))
                    None sl next_reconnect
      | inr src =>
          let resets := reset_slots cfg sl in
          Iteration (after (paced pace ++ created stats ++ [ev_dst; ev_src]
                              ++ resets.1 ++ add_sockets stats src dst)
                           (forward_both cfg stats src dst now))
                    (start_backward cfg src dst now) resets.2 next_reconnect
      end
  end.

(** The [try] block with its handler: a [socket::exception] is logged and
    the iteration is over; nothing else is caught. *)
Definition try_catch (cfg : config) (r : round) (sl : slots)
    (next_reconnect now : Z) : iteration :=
  let it := try_block cfg r sl next_reconnect now in
  match exit (main it) with
  | Raised (SocketException what) =>
      Iteration (Exec Returned (events (main it) ++ [EvLog (LogError what)])
                      (ends_at (main it)))
                (backward it) (slots_after it) (next_reconnect_after it)
  | _ => it
  end.

(** What [run] did: its own thread, the backward threads it started (one
    per iteration that started one, oldest first) and the two slots. *)
Record run_result : Type := RunResult {
  thread : execution;
  backward_threads : list execution;
  slots_left : slots
}.

(** [do { try { ... } catch ... } while (cfg.reconnect && !force_break)],
    by recursion on the rounds the environment has scripted.  With no round
    left the iteration's [create_connection] never returns. *)
Fixpoint run_loop (cfg : config) (rounds : list round) (sl : slots)
    (next_reconnect now : Z) : run_result :=
  match rounds with
  | [] => RunResult (Exec Blocked [] now) [] sl
  | r :: rounds =>
      let it := try_catch cfg r sl next_reconnect now in
      let spawned := option_list (backward it) in
      match exit (main it) with
      | Returned =>
          let now := ends_at (main it) in
          if reconnect cfg && negb (force_break now) then
            let rest := run_loop cfg rounds (slots_after it)
                                 (next_reconnect_after it) now in
            RunResult (after (events (main it)) (thread rest))
                      (spawned ++ backward_threads rest) (slots_left rest)
          else
            RunResult (main it) spawned (slots_after it)
      | _ => RunResult (main it) spawned (slots_after it)
      end
  end.

(** [run(src_urls, dst_urls, cfg, force_break)], entered when the clock
    reads [now].  The URLs reach the code only through [create_connection],
    whose results the rounds script. *)
Definition run (cfg : config) (rounds : list round) (now : Z) : run_result :=
  let next_reconnect := now in
  run_loop cfg rounds (Slots None None) next_reconnect now.

End WithFlag.

End Route.

(** ** Observations on traces *)

(** The byte strings handed to [write], in order. *)
Definition written (evs : list event) : list (list byte) :=
  omap (λ ev, match ev with EvWrite _ data _ => Some data | _ => None end) evs.



(** The clock samples taken at the top of the iterations, in order. *)
Definition starts (evs : list event) : list Z :=
  omap (λ ev, match ev with EvNow tnow => Some tnow | _ => None end) evs.

(** The times at which the iterations began to connect (the destination
    comes first), in order. *)
Definition attempts (evs : list event) : list Z :=
  omap (λ ev, match ev with EvConnect Dst at_time _ _ => Some at_time | _ => None end) evs.

(** Modelled from the spec: the effect of the Statistics Sampler's
    [addSocket(Endpoint)] and [removeSocket(identifier)] (section 4.3; the
    class is defined outside route.cpp) on the set of registered endpoints.
    A call through a null handle reaches no sampler. *)
Definition registry_step (reg : gset Z) (ev : event) : gset Z :=
  match ev with
  | EvStatsNew _ => ∅
  | EvAddSocket sock => {[sock]} ∪ reg
  | EvRemoveSocket (Some _) sock => reg ∖ {[sock]}
  | _ => reg
  end.

(** The endpoints registered after a trace. *)
Definition registered (evs : list event) : gset Z := foldl registry_step ∅ evs.

(** The events by which a forwarding loop shows: its start on another
    thread, its start message, its reads, writes and messages. *)
Definition forwarding (ev : event) : Prop :=
  match ev with
  | EvAsync _ | EvRead _ _ _ | EvWrite _ _ _
  | EvLog (LogStarted _) | EvLog (LogZeroRead _) | EvLog (LogWriteMismatch _ _ _) => True
  | _ => False
  end.

Definition is_add_socket (ev : event) : Prop :=
  match ev with EvAddSocket _ => True | _ => False end.

Definition is_remove_socket (ev : event) : Prop :=
  match ev with EvRemoveSocket _ _ => True | _ => False end.

Definition is_error_log (ev : event) : Prop :=
  match ev with EvLog (LogError _) => True | _ => False end.

(** The clock when an iteration whose two connections succeed starts the
    forwarding loops. *)
Definition forward_start (r : Route.round) (sl : Route.slots)
    (next_reconnect now : Z) : Z :=
  Route.resumed_at (Route.backoff (Route.lag r) next_reconnect now)
  + Z.of_N (Route.spent (Route.create_connection (Route.dst_reply r) (Route.dst_sock sl)))
  + Z.of_N (Route.spent (Route.create_connection (Route.src_reply r) (Route.src_sock sl))).

(** A read on [sock_src] or a write on [sock_dst] raised [e]. *)
Definition thrown_in (sock_src sock_dst : Z) (e : exn) (evs : list event) : Prop :=
  EvRead sock_src (-1) (inl e) ∈ evs ∨ ∃ data, EvWrite sock_dst data (inl e) ∈ evs.

(** The exception [e] is raised on the thread of [run] during an iteration:
    by the connection of the destination, by that of the source, or by a
    read or a write of the forward loop (and then the backward loop, if there
    is one, comes to an end, so that the future's destructor returns). *)
Inductive RaisedOnRunThread (force_break : Z → bool) (cfg : config)
    (r : Route.round) (sl : Route.slots) (next_reconnect now : Z) (e : exn) : Prop :=
| raised_connecting_dst :
    Route.got (Route.create_connection (Route.dst_reply r) (Route.dst_sock sl)) = inl e →
    RaisedOnRunThread force_break cfg r sl next_reconnect now e
| raised_connecting_src dst :
    Route.got (Route.create_connection (Route.dst_reply r) (Route.dst_sock sl)) = inr dst →
    Route.got (Route.create_connection (Route.src_reply r) (Route.src_sock sl)) = inl e →
    RaisedOnRunThread force_break cfg r sl next_reconnect now e
| raised_forwarding dst src :
    Route.got (Route.create_connection (Route.dst_reply r) (Route.dst_sock sl)) = inr dst →
    Route.got (Route.create_connection (Route.src_reply r) (Route.src_sock sl)) = inr src →
    thrown_in (id src) (id dst) e
      (events (Route.route force_break src dst cfg "[SRC->DST]"
                 (forward_start r sl next_reconnect now))) →
    (∀ b, Route.start_backward force_break cfg src dst
            (forward_start r sl next_reconnect now) = Some b → exit b ≠ Blocked) →
    RaisedOnRunThread force_break cfg r sl next_reconnect now e.

(** The exception [e] is thrown on the thread of [run] during an iteration:
    by the connection of the destination, by that of the source, or by a
    read or a write of the forward loop, whatever the backward loop does. *)
Inductive ThrownOnRunThread (force_break : Z → bool) (cfg : config)
    (r : Route.round) (sl : Route.slots) (next_reconnect now : Z) (e : exn) : Prop :=
| thrown_connecting_dst :
    Route.got (Route.create_connection (Route.dst_reply r) (Route.dst_sock sl)) = inl e →
    ThrownOnRunThread force_break cfg r sl next_reconnect now e
| thrown_connecting_src dst :
    Route.got (Route.create_connection (Route.dst_reply r) (Route.dst_sock sl)) = inr dst →
    Route.got (Route.create_connection (Route.src_reply r) (Route.src_sock sl)) = inl e →
    ThrownOnRunThread force_break cfg r sl next_reconnect now e
| thrown_forwarding dst src :
    Route.got (Route.create_connection (Route.dst_reply r) (Route.dst_sock sl)) = inr dst →
    Route.got (Route.create_connection (Route.src_reply r) (Route.src_sock sl)) = inr src →
    thrown_in (id src) (id dst) e
      (events (Route.route force_break src dst cfg "[SRC->DST]"
                 (forward_start r sl next_reconnect now))) →
    ThrownOnRunThread force_break cfg r sl next_reconnect now e.

(** The byte strings that reads returned, in order. *)
Definition received (evs : list event) : list (list byte) :=
  omap (λ ev, match ev with EvRead _ _ (inr bytes) => Some bytes | _ => None end) evs.

(** The calls of the Connection Factory, in order: the side and what came
    back, the id of the endpoint or the exception. *)
Definition connects (evs : list event) : list (side * (exn + Z)) :=
  omap (λ ev, match ev with EvConnect sd _ _ got => Some (sd, got) | _ => None end) evs.

(** What each call of the Connection Factory for the source found in
    [src_sock]. *)
Definition src_slots_found (evs : list event) : list (option Z) :=
  omap (λ ev, match ev with EvConnect Src _ slot _ => Some slot | _ => None end) evs.

(** The statistics writers constructed, in order. *)
Definition writers_created (evs : list event) : list stats_writer :=
  omap (λ ev, match ev with EvStatsNew sw => Some sw | _ => None end) evs.

(** The life of the statistics writers along a trace.  [alive] tells whether
    a writer exists.  The scan fails where a writer is constructed while one
    exists, where one is deleted while none exists, where [add_socket] or
    [remove_socket] is called while none exists, and where [remove_socket]
    goes through a null handle. *)
Fixpoint stats_lifetimes (alive : bool) (evs : list event) : option bool :=
  match evs with
  | [] => Some alive
  | EvStatsNew _ :: evs => if alive then None else stats_lifetimes true evs
  | EvStatsDelete :: evs => if alive then stats_lifetimes false evs else None
  | EvAddSocket _ :: evs => if alive then stats_lifetimes alive evs else None
  | EvRemoveSocket (Some _) _ :: evs => if alive then stats_lifetimes alive evs else None
  | EvRemoveSocket None _ :: evs => None
  | _ :: evs => stats_lifetimes alive evs
  end.

(** What a trace that ended in [o] shows of the writers, scanned from the
    state [alive].  Where the code went wrong in [remove_socket] through the
    null handle, that call is the last event, the trace before it passes the
    scan and no writer exists; after a return or an exception the whole
    trace passes and no writer is left; otherwise the whole trace passes. *)
Definition stats_in_order (o : outcome) (alive : bool) (evs : list event) : Prop :=
  match o with
  | Undefined NullStatsDereference =>
      ∃ before sock,
        evs = before ++ [EvRemoveSocket None sock]
        ∧ stats_lifetimes alive before = Some false
  | Returned | Raised _ => stats_lifetimes alive evs = Some false
  | _ => ∃ still, stats_lifetimes alive evs = Some still
  end.

(** The sleeps of a trace: the clock sample before the sleep, the deadline,
    and the clock when the sleep was over. *)
Fixpoint naps (evs : list event) : list (Z * Z * Z) :=
  match evs with
  | [] => []
  | ev :: evs =>
      match ev, evs with
      | EvNow tnow, EvSleepUntil deadline woke :: _ => (tnow, deadline, woke) :: naps evs
      | _, _ => naps evs
      end
  end.

Definition is_io (ev : event) : Prop :=
  match ev with EvRead _ _ _ | EvWrite _ _ _ => True | _ => False end.

(** The events with which an iteration winds up after the forward loop. *)
Definition winding_up (ev : event) : Prop :=
  match ev with
  | EvWait _ | EvJoin | EvRemoveSocket _ _ | EvStatsDelete => True
  | _ => False
  end.

(** The events of an iteration that come after its calls of the Connection
    Factory. *)
Definition past_connecting (ev : event) : Prop :=
  match ev with
  | EvSlotReset _ | EvAddSocket _ | EvLog (LogError _) => True
  | _ => forwarding ev ∨ winding_up ev
  end.

(** The flag as set at tick [t] and never cleared, and the flag never set. *)
Definition set_at (t : Z) : Z → bool := λ now, t <=? now.
Definition never_set : Z → bool := λ _, false.

(** ** The forwarding loop: facts *)

Section RouteLoopFacts.

Variable force_break : Z → bool.
Variables (sock_src sock_dst : Z) (desc : string).

Local Abbreviation route_loop := (Route.route_loop force_break sock_src sock_dst desc).

(** What [read] stores never exceeds the buffer, and storing it keeps the
    buffer's size. *)
Lemma refill_length (buffer payload : list byte) :
  let received := take (length buffer) payload in
  length (received ++ drop (length received) buffer) = length buffer.
Proof.
  simpl. rewrite length_app, length_drop, length_take. lia.
Qed.

(** [const_buffer(buffer.data(), bytes_read)] is what was just received. *)
Lemma const_buffer_received (received rest : list byte) :
  take (Z.to_nat (Z.of_nat (length received))) (received ++ rest) = received.
Proof. rewrite Nat2Z.id. apply take_app_length. Qed.

(** The first thing the loop does, if it does anything, is a read. *)
Lemma route_loop_starts_with_read src_reads dst_writes buffer now ev :
  head (events (route_loop src_reads dst_writes buffer now)) = Some ev →
  ∃ got, ev = EvRead sock_src (-1) got.
Proof.
  destruct src_reads as [|[payload took|e took] src_reads]; simpl;
    destruct (force_break now); simpl; try discriminate.
  - destruct (_ =? 0); simpl; [intros [= <-]; eauto|].
    destruct dst_writes as [|[bytes_sent took'|e took'] dst_writes]; simpl.
    + intros [= <-]; eauto.
    + destruct (negb _); simpl; intros [= <-]; eauto.
    + intros [= <-]; eauto.
  - intros [= <-]; eauto.
Qed.

(** One pass through the loop body when the read returns bytes and the
    write returns: the write is handed what was received. *)
Lemma route_loop_relay payload took src_reads bytes_sent took' dst_writes buffer now :
  force_break now = false →
  let received := take (length buffer) payload in
  received ≠ [] →
  ∃ logged,
    route_loop (ReadOk payload took :: src_reads)
               (WriteOk bytes_sent took' :: dst_writes) buffer now
    = after (EvRead sock_src (-1) (inr received)
               :: EvWrite sock_dst received (inr bytes_sent) :: logged)
            (route_loop src_reads dst_writes
               (received ++ drop (length received) buffer)
               (now + Z.of_N took + Z.of_N took'))
    ∧ (logged = [] ∨
       logged = [EvLog (LogWriteMismatch desc bytes_sent (Z.of_nat (length received)))]).
Proof.
  intros Hgo received Hne. simpl. rewrite Hgo. fold received.
  destruct (Z.eqb_spec (Z.of_nat (length received)) 0) as [H0|_].
  { destruct received; [done | simpl in H0; lia]. }
  rewrite const_buffer_received.
  destruct (negb _); eauto.
Qed.






(** The loop does nothing but read, write and log. *)
Lemma route_loop_forwarding src_reads : ∀ dst_writes buffer now,
  Forall forwarding (events (route_loop src_reads dst_writes buffer now)).
Proof.
  induction src_reads as [|[payload took|e took] src_reads IH];
    intros dst_writes buffer now; simpl;
    (destruct (force_break now); [constructor|]).
  - constructor.
  - destruct (_ =? 0); simpl; [by repeat constructor|].
    destruct dst_writes as [|[bytes_sent took'|e took'] dst_writes]; simpl;
      [by repeat constructor| |by repeat constructor].
    destruct (negb _); simpl; by repeat constructor.
  - by repeat constructor.
Qed.

(** The loop has no handler: an exception raised by a read or by a write
    ends it and leaves it. *)
Lemma route_loop_raises src_reads : ∀ dst_writes buffer now e,
  thrown_in sock_src sock_dst e (events (route_loop src_reads dst_writes buffer now)) →
  exit (route_loop src_reads dst_writes buffer now) = Raised e.
Proof.
  unfold thrown_in.
  induction src_reads as [|[payload took|e' took] src_reads IH];
    intros dst_writes buffer now e; simpl;
    (destruct (force_break now); simpl; [set_solver|]).
  - set_solver.
  - destruct (_ =? 0); simpl.
    { intros Hin. apply IH. set_solver. }
    destruct dst_writes as [|[bytes_sent took'|e'' took'] dst_writes]; simpl.
    + set_solver.
    + destruct (negb _); simpl; intros Hin; apply IH; set_solver.
    + intros [Hin|[data Hin]]; [set_solver|].
      apply elem_of_cons in Hin as [[=]|Hin].
      apply elem_of_cons in Hin as [[= _ <-]|Hin]; [done|set_solver].
  - intros [Hin|[data Hin]]; [|set_solver].
    apply elem_of_cons in Hin as [[= <-]|Hin]; [done|set_solver].
Qed.

(** Conversely, the loop is left by an exception only if a read or a write
    raised it. *)
Lemma route_loop_raised_inv src_reads : ∀ dst_writes buffer now e,
  exit (route_loop src_reads dst_writes buffer now) = Raised e →
  thrown_in sock_src sock_dst e (events (route_loop src_reads dst_writes buffer now)).
Proof.
  unfold thrown_in.
  induction src_reads as [|[payload took|e' took] src_reads IH];
    intros dst_writes buffer now e; simpl;
    (destruct (force_break now); simpl; [done|]); [done| |].
  - destruct (_ =? 0); simpl.
    { intros Hexit. destruct (IH _ _ _ _ Hexit) as [?|[data ?]]; set_solver. }
    destruct dst_writes as [|[bytes_sent took'|e'' took'] dst_writes]; simpl; [done| |].
    + destruct (negb _); simpl; intros Hexit;
        destruct (IH _ _ _ _ Hexit) as [?|[data ?]]; set_solver.
    + intros [= ->]. right. eexists. apply list_elem_of_further, list_elem_of_here.
  - intros [= ->]. left. apply list_elem_of_here.
Qed.

(** With the flag clear and the endpoint answering, the loop's next event is
    a read on [sock_src]. *)
Lemma route_loop_reads_next r src_reads dst_writes buffer now :
  force_break now = false →
  ∃ got, head (events (route_loop (r :: src_reads) dst_writes buffer now))
         = Some (EvRead sock_src (-1) got).
Proof.
  intros Hgo. simpl. rewrite Hgo. destruct r as [payload took|e took]; simpl.
  - destruct (_ =? 0); simpl; [eauto|].
    destruct dst_writes as [|[bytes_sent took'|e took'] dst_writes]; simpl; eauto.
    destruct (negb _); simpl; eauto.
  - eauto.
Qed.

(** The comparison [bytes_sent != bytes_read] of line 64 detects every
    difference between an [int] and the size of what a buffer of fewer than
    2^63 bytes received. *)
Lemma mismatch_detected (bytes_sent bytes_read : Z) :
  int_min ≤ bytes_sent ≤ int_max →
  0 ≤ bytes_read < 2 ^ 63 →
  bytes_sent ≠ bytes_read →
  negb (to_size_t bytes_sent =? bytes_read) = true.
Proof.
  unfold int_min, int_max, to_size_t. intros Hint Hsize Hne.
  apply negb_true_iff, Z.eqb_neq. intros Heq.
  destruct (Z_lt_le_dec bytes_sent 0) as [Hneg|Hpos].
  - assert (bytes_sent mod 2 ^ 64 = bytes_sent + 2 ^ 64) as Hwrap.
    { symmetry. apply (Z.mod_unique _ _ (-1)); lia. }
    lia.
  - rewrite Z.mod_small in Heq by lia. lia.
Qed.

(** C9.  When a read returns 0 bytes, the loop records the read, logs, and
    goes round again with the writes of [sock_dst] and the buffer untouched:
    nothing is written and the loop is not left.  If the flag is still clear
    and the endpoint answers, the very next event is another read on the same
    socket; if the flag is set by then, the loop returns. *)
Theorem zero_read_retries payload took src_reads dst_writes buffer now :
  force_break now = false →
  take (length buffer) payload = [] →
  let x := route_loop (ReadOk payload took :: src_reads) dst_writes buffer now in
  let again := route_loop src_reads dst_writes buffer (now + Z.of_N took) in
  x = after [EvRead sock_src (-1) (inr []); EvLog (LogZeroRead desc)] again
  ∧ written (events x) = written (events again)
  ∧ (force_break (now + Z.of_N took) = false →
     src_reads ≠ [] →
     ∃ got, events x !! 2%nat = Some (EvRead sock_src (-1) got))
  ∧ (force_break (now + Z.of_N took) = true →
     exit x = Returned ∧
     events x = [EvRead sock_src (-1) (inr []); EvLog (LogZeroRead desc)]).
Proof.
  intros Hgo Hzero x again.
  assert (x = after [EvRead sock_src (-1) (inr []); EvLog (LogZeroRead desc)] again)
    as Hx.
  { subst x again. simpl. rewrite Hgo, Hzero. reflexivity. }
  split; [exact Hx|]. rewrite Hx. split; [reflexivity|]. split.
  - intros Hstill Hmore. destruct src_reads as [|r rs]; [done|].
    destruct (route_loop_reads_next r rs dst_writes buffer _ Hstill) as [got Hgot].
    exists got. simpl. fold again in Hgot.
    destruct (events again); [done|]. simpl in *. congruence.
  - intros Hset. subst again.
    destruct src_reads; simpl; rewrite Hset; done.
Qed.

(** C8.  When [write] returns a count that differs from the number of bytes
    just read, the loop logs the two counts and goes round again on the next
    read reply and the next write reply: the exit of the whole call is that of
    the rest of the loop, and the next thing the loop does, if anything, is a
    read, not another write. *)
Theorem write_mismatch_logged_not_retried
    payload took src_reads bytes_sent took' dst_writes buffer now :
  force_break now = false →
  let received := take (length buffer) payload in
  let bytes_read := Z.of_nat (length received) in
  received ≠ [] →
  Z.of_nat (length buffer) < 2 ^ 63 →
  int_min ≤ bytes_sent ≤ int_max →
  bytes_sent ≠ bytes_read →
  let x := route_loop (ReadOk payload took :: src_reads)
                      (WriteOk bytes_sent took' :: dst_writes) buffer now in
  let rest := route_loop src_reads dst_writes
                (received ++ drop (length received) buffer)
                (now + Z.of_N took + Z.of_N took') in
  x = after [EvRead sock_src (-1) (inr received);
             EvWrite sock_dst received (inr bytes_sent);
             EvLog (LogWriteMismatch desc bytes_sent bytes_read)] rest
  ∧ exit x = exit rest
  ∧ written (events x) = received :: written (events rest)
  ∧ ∀ ev, head (events rest) = Some ev → ∃ got, ev = EvRead sock_src (-1) got.
Proof.
  intros Hgo received bytes_read Hne Hcap Hint Hdiff x rest.
  assert (x = after [EvRead sock_src (-1) (inr received);
                     EvWrite sock_dst received (inr bytes_sent);
                     EvLog (LogWriteMismatch desc bytes_sent bytes_read)] rest)
    as Hx.
  { subst x rest. simpl. rewrite Hgo. fold received. fold bytes_read.
    destruct (Z.eqb_spec bytes_read 0) as [H0|_].
    { subst bytes_read. destruct received; [done | simpl in H0; lia]. }
    rewrite mismatch_detected; [|done| |done].
    - subst bytes_read. by rewrite const_buffer_received.
    - subst bytes_read received. rewrite length_take. lia. }
  split; [exact Hx|]. rewrite Hx. repeat split.
  apply route_loop_starts_with_read.
Qed.

End RouteLoopFacts.

Section RouteFacts.

Variable force_break : Z → bool.


Lemma route_forwarding src dst cfg desc now :
  Forall forwarding (events (Route.route force_break src dst cfg desc now)).
Proof. constructor; [done|]. apply route_loop_forwarding. Qed.

Lemma route_raises src dst cfg desc now e :
  thrown_in (id src) (id dst) e (events (Route.route force_break src dst cfg desc now)) →
  exit (Route.route force_break src dst cfg desc now) = Raised e.
Proof.
  intros Hin. apply route_loop_raises. unfold thrown_in in *. cbn in Hin. set_solver.
Qed.

Lemma route_raised_inv src dst cfg desc now e :
  exit (Route.route force_break src dst cfg desc now) = Raised e →
  thrown_in (id src) (id dst) e (events (Route.route force_break src dst cfg desc now)).
Proof.
  intros Hexit. apply route_loop_raised_inv in Hexit.
  unfold thrown_in in *. cbn. set_solver.
Qed.

End RouteFacts.

(** ** Traces: facts *)

Lemma events_after evs x : events (after evs x) = evs ++ events x.
Proof. done. Qed.

Lemma exit_after evs x : exit (after evs x) = exit x.
Proof. done. Qed.

Lemma ends_at_after evs x : ends_at (after evs x) = ends_at x.
Proof. done. Qed.

Lemma starts_app evs1 evs2 : starts (evs1 ++ evs2) = starts evs1 ++ starts evs2.
Proof. apply omap_app. Qed.

Lemma attempts_app evs1 evs2 : attempts (evs1 ++ evs2) = attempts evs1 ++ attempts evs2.
Proof. apply omap_app. Qed.

(** The events of a forwarding loop are no clock samples, no connections,
    and leave the registry of the statistics writer alone. *)
Lemma forwarding_quiet evs :
  Forall forwarding evs →
  starts evs = [] ∧ attempts evs = []
  ∧ (∀ reg, foldl registry_step reg evs = reg)
  ∧ Forall (λ ev, ¬ is_add_socket ev ∧ ¬ is_remove_socket ev ∧ ¬ is_error_log ev) evs.
Proof.
  induction 1 as [|ev evs Hev _ (IHs & IHa & IHr & IHn)].
  - repeat split; constructor.
  - destruct ev as [| | | | | | | | | | | | |[]]; try done; cbn;
      (repeat split; [done..|]); apply Forall_cons; tauto.
Qed.


Lemma registered_app evs1 evs2 :
  registered (evs1 ++ evs2) = foldl registry_step (registered evs1) evs2.
Proof. apply foldl_app. Qed.

(** The registry never holds an endpoint that no [add_socket] named. *)
Lemma registry_within (among : gset Z) evs : ∀ reg,
  reg ⊆ among →
  Forall (λ ev, ∀ sock, ev = EvAddSocket sock → sock ∈ among) evs →
  foldl registry_step reg evs ⊆ among.
Proof.
  induction evs as [|ev evs IH]; intros reg Hreg Hadds; [done|].
  apply Forall_cons in Hadds as [Hev Hadds]. cbn. apply IH; [|done].
  destruct ev as [| | | | | | |[]| | | | | |]; cbn; try done; [set_solver..].
Qed.

Lemma size_pair (a b : Z) : (size ({[a]} ∪ {[b]} : gset Z) ≤ 2)%nat.
Proof.
  rewrite size_union_alt, size_singleton.
  assert (size ({[b]} ∖ {[a]} : gset Z) ≤ size ({[b]} : gset Z))%nat as Hle
    by (apply subseteq_size; set_solver).
  rewrite size_singleton in Hle. lia.
Qed.

(** ** The orchestrator: facts *)

Import Route.

Section RunFacts.

Variable force_break : Z → bool.

Local Abbreviation route := (Route.route force_break).
Local Abbreviation try_block := (Route.try_block force_break).
Local Abbreviation try_catch := (Route.try_catch force_break).
Local Abbreviation forward_both := (Route.forward_both force_break).
Local Abbreviation start_backward := (Route.start_backward force_break).
Local Abbreviation run_loop := (Route.run_loop force_break).

(** *** The shape of an iteration *)

Lemma try_block_dst_fails cfg r sl next_reconnect now e :
  got (create_connection (dst_reply r) (dst_sock sl)) = inl e →
  let pace := backoff (lag r) next_reconnect now in
  let stats := new_stats cfg in
  let conn_dst := create_connection (dst_reply r) (dst_sock sl) in
  try_block cfg r sl next_reconnect now
  = Iteration
      (Exec (Raised e)
         (paced pace ++ created stats
            ++ [EvConnect Dst (resumed_at pace) (dst_sock sl) (inl e)]
            ++ delete_stats stats)
         (resumed_at pace + Z.of_N (spent conn_dst)))
      None (Slots (src_sock sl) (slot_after conn_dst)) (deadline pace).
Proof.
  intros Hdst. unfold Route.try_block. rewrite Hdst. simpl.
  unfold after; simpl. by rewrite <- !app_assoc.
Qed.

Lemma try_block_src_fails cfg r sl next_reconnect now dst e :
  got (create_connection (dst_reply r) (dst_sock sl)) = inr dst →
  got (create_connection (src_reply r) (src_sock sl)) = inl e →
  let pace := backoff (lag r) next_reconnect now in
  let stats := new_stats cfg in
  let conn_dst := create_connection (dst_reply r) (dst_sock sl) in
  let conn_src := create_connection (src_reply r) (src_sock sl) in
  try_block cfg r sl next_reconnect now
  = Iteration
      (Exec (Raised e)
         (paced pace ++ created stats
            ++ [EvConnect Dst (resumed_at pace) (dst_sock sl) (inr (id dst));
                EvConnect Src (resumed_at pace + Z.of_N (spent conn_dst))
                          (src_sock sl) (inl e)]
            ++ delete_stats stats)
         (forward_start r sl next_reconnect now))
      None (Slots (slot_after conn_src) (slot_after conn_dst)) (deadline pace).
Proof.
  intros Hdst Hsrc. unfold Route.try_block. rewrite Hdst. simpl.
  rewrite Hsrc. simpl. unfold after; simpl. by rewrite <- !app_assoc.
Qed.

Lemma try_block_connected cfg r sl next_reconnect now dst src :
  got (create_connection (dst_reply r) (dst_sock sl)) = inr dst →
  got (create_connection (src_reply r) (src_sock sl)) = inr src →
  let pace := backoff (lag r) next_reconnect now in
  let stats := new_stats cfg in
  let conn_dst := create_connection (dst_reply r) (dst_sock sl) in
  let conn_src := create_connection (src_reply r) (src_sock sl) in
  let resets := reset_slots cfg (Slots (slot_after conn_src) (slot_after conn_dst)) in
  let start := forward_start r sl next_reconnect now in
  try_block cfg r sl next_reconnect now
  = Iteration
      (after (paced pace ++ created stats
                ++ [EvConnect Dst (resumed_at pace) (dst_sock sl) (inr (id dst));
                    EvConnect Src (resumed_at pace + Z.of_N (spent conn_dst))
                              (src_sock sl) (inr (id src))]
                ++ resets.1 ++ add_sockets stats src dst)
             (forward_both cfg stats src dst start))
      (start_backward cfg src dst start) resets.2 (deadline pace).
Proof.
  intros Hdst Hsrc. unfold Route.try_block. rewrite Hdst. simpl.
  rewrite Hsrc. simpl. reflexivity.
Qed.

(** *** Pacing *)

Lemma backoff_paced lag next_reconnect now :
  let pace := backoff lag next_reconnect now in
  starts (paced pace) = [now] ∧ attempts (paced pace) = []
  ∧ now ≤ resumed_at pace ∧ next_reconnect ≤ resumed_at pace
  ∧ deadline pace = now + seconds 1.
Proof.
  unfold backoff. destruct (Z.ltb_spec now next_reconnect); cbn; repeat split; lia.
Qed.

Lemma wait_and_deregister_paced route_bkwd stats src dst now :
  let x := wait_and_deregister route_bkwd stats src dst now in
  starts (events x) = [] ∧ attempts (events x) = [].
Proof.
  destruct route_bkwd as [[[] ? ?]|], stats; done.
Qed.

Lemma unwind_paced route_bkwd stats e now :
  let x := unwind route_bkwd stats e now in
  starts (events x) = [] ∧ attempts (events x) = [].
Proof.
  destruct route_bkwd as [[[] ? ?]|], stats; done.
Qed.

Lemma forward_both_paced cfg stats src dst now :
  starts (events (forward_both cfg stats src dst now)) = []
  ∧ attempts (events (forward_both cfg stats src dst now)) = [].
Proof.
  unfold Route.forward_both.
  rewrite events_after, !starts_app, !attempts_app.
  destruct (forwarding_quiet _ (route_forwarding force_break src dst cfg "[SRC->DST]" now))
    as (-> & -> & _).
  assert (starts (started (start_backward cfg src dst now)) = []
          ∧ attempts (started (start_backward cfg src dst now)) = []) as [-> ->].
  { by destruct (start_backward cfg src dst now). }
  destruct (exit (route src dst cfg "[SRC->DST]" now));
    [apply wait_and_deregister_paced | apply unwind_paced | done..].
Qed.

Lemma reset_slots_paced cfg sl :
  starts (reset_slots cfg sl).1 = [] ∧ attempts (reset_slots cfg sl).1 = [].
Proof. unfold reset_slots. by destruct (reconnect cfg). Qed.

(** An iteration samples the clock once, at its start, and calls the
    Connection Factory for the destination once, when [backoff] is over. *)
Lemma try_block_paced cfg r sl next_reconnect now :
  let it := try_block cfg r sl next_reconnect now in
  starts (events (main it)) = [now]
  ∧ attempts (events (main it)) = [resumed_at (backoff (lag r) next_reconnect now)]
  ∧ next_reconnect_after it = now + seconds 1.
Proof.
  destruct (backoff_paced (lag r) next_reconnect now) as (Hs & Ha & Hnow & _ & Hd).
  destruct (got (create_connection (dst_reply r) (dst_sock sl))) as [e|dst] eqn:Hdst.
  { rewrite (try_block_dst_fails _ _ _ _ _ _ Hdst).
    cbn [main events next_reconnect_after ends_at].
    rewrite !starts_app, !attempts_app, Hs, Ha, Hd.
    destruct (new_stats cfg); cbn; repeat split; lia. }
  destruct (got (create_connection (src_reply r) (src_sock sl))) as [e|src] eqn:Hsrc.
  { rewrite (try_block_src_fails _ _ _ _ _ _ _ Hdst Hsrc).
    cbn [main events next_reconnect_after ends_at]. unfold forward_start.
    rewrite !starts_app, !attempts_app, Hs, Ha, Hd.
    destruct (new_stats cfg); cbn; repeat split; lia. }
  rewrite (try_block_connected _ _ _ _ _ _ _ Hdst Hsrc).
  cbn [main next_reconnect_after]. rewrite events_after.
  rewrite !starts_app, !attempts_app, Hs, Ha, Hd.
  destruct (forward_both_paced cfg (new_stats cfg) src dst
              (forward_start r sl next_reconnect now)) as [-> ->].
  destruct (reset_slots_paced cfg
              (Slots (slot_after (create_connection (src_reply r) (src_sock sl)))
                     (slot_after (create_connection (dst_reply r) (dst_sock sl)))))
    as [-> ->].
  repeat split; destruct (new_stats cfg); done.
Qed.

Lemma try_catch_paced cfg r sl next_reconnect now :
  let it := try_catch cfg r sl next_reconnect now in
  starts (events (main it)) = [now]
  ∧ attempts (events (main it)) = [resumed_at (backoff (lag r) next_reconnect now)]
  ∧ next_reconnect_after it = now + seconds 1.
Proof.
  destruct (try_block_paced cfg r sl next_reconnect now) as (Hs & Ha & Hd).
  unfold Route.try_catch.
  destruct (exit (main (try_block cfg r sl next_reconnect now))) as [|[what|what]| |];
    cbn [main events next_reconnect_after]; try done.
  rewrite starts_app, attempts_app, Hs, Ha. done.
Qed.

(** C5 (as amended).  In every run, the connections of an iteration are not
    attempted before a second has gone by since the clock sample taken at
    the top of the iteration before it. *)
Theorem next_attempt_a_second_after_previous_start cfg rounds now k a b :
  let evs := events (thread (Route.run force_break cfg rounds now)) in
  starts evs !! k = Some a →
  attempts evs !! S k = Some b →
  a + seconds 1 ≤ b.
Proof.
  intros evs. subst evs. unfold Route.run.
  (* Strengthened for the induction: the first attempt of the rounds to come
     is not made before [next_reconnect]. *)
  enough (∀ sl next_reconnect now,
            let evs := events (thread (run_loop cfg rounds sl next_reconnect now)) in
            (∀ b, head (attempts evs) = Some b → next_reconnect ≤ b)
            ∧ (∀ k a b, starts evs !! k = Some a → attempts evs !! S k = Some b →
                        a + seconds 1 ≤ b)) as Hpaced.
  { apply (Hpaced (Slots None None) now now). }
  clear now k a b.
  induction rounds as [|r rounds IH]; intros sl next_reconnect now; [done|].
  destruct (try_catch_paced cfg r sl next_reconnect now) as (Hs & Ha & Hd).
  destruct (backoff_paced (lag r) next_reconnect now) as (_ & _ & _ & Hwoke & _).
  cbn [Route.run_loop].
  set (it := try_catch cfg r sl next_reconnect now) in *.
  (* [run] is left after this iteration: one sample, one attempt. *)
  assert (∀ evs, evs = events (main it) →
            (∀ b, head (attempts evs) = Some b → next_reconnect ≤ b)
            ∧ (∀ k a b, starts evs !! k = Some a → attempts evs !! S k = Some b →
                        a + seconds 1 ≤ b)) as Hstop.
  { intros evs ->. rewrite Hs, Ha. split; [by intros b [= <-]|]. by intros k a b _ ?. }
  destruct (exit (main it)); try by apply Hstop.
  destruct (reconnect cfg && negb (force_break (ends_at (main it))));
    [|by apply Hstop].
  (* another iteration follows, with the deadline [now + seconds 1] *)
  cbn [thread events after].
  rewrite starts_app, attempts_app, Hs, Ha.
  destruct (IH (slots_after it) (next_reconnect_after it) (ends_at (main it)))
    as [IHhead IHpairs].
  split; [by intros b [= <-]|].
  intros [|k] a b; cbn.
  - intros [= <-] Hb. rewrite <- Hd. apply IHhead. by rewrite head_lookup.
  - apply IHpairs.
Qed.

(** C4 (as amended).  When [next_reconnect] lies ahead, the iteration sleeps
    until that deadline has come, also when the flag is set in the meantime,
    and then goes on to call the Connection Factory: the sleep does not look
    at the flag. *)
Theorem backoff_sleep_lasts_to_deadline cfg r sl next_reconnect now :
  now < next_reconnect →
  (∃ t, now ≤ t < next_reconnect ∧ force_break t = true) →
  ∃ woke got rest,
    next_reconnect ≤ woke
    ∧ events (main (try_block cfg r sl next_reconnect now))
      = EvNow now :: EvSleepUntil next_reconnect woke
          :: created (new_stats cfg) ++ EvConnect Dst woke (dst_sock sl) got :: rest.
Proof.
  intros Hahead _.
  assert (backoff (lag r) next_reconnect now
          = Pacing [EvNow now; EvSleepUntil next_reconnect (next_reconnect + Z.of_N (lag r))]
                   (next_reconnect + Z.of_N (lag r)) (now + seconds 1)) as Hpace.
  { unfold backoff. by destruct (Z.ltb_spec now next_reconnect); [|lia]. }
  exists (next_reconnect + Z.of_N (lag r)).
  destruct (got (create_connection (dst_reply r) (dst_sock sl))) as [e|dst] eqn:Hdst.
  { rewrite (try_block_dst_fails _ _ _ _ _ _ Hdst), Hpace. cbn.
    eexists _, _. split; [lia|reflexivity]. }
  destruct (got (create_connection (src_reply r) (src_sock sl))) as [e|src] eqn:Hsrc.
  { rewrite (try_block_src_fails _ _ _ _ _ _ _ Hdst Hsrc), Hpace. cbn.
    eexists _, _. split; [lia|]. rewrite <- ?app_assoc. reflexivity. }
  rewrite (try_block_connected _ _ _ _ _ _ _ Hdst Hsrc), Hpace. cbn.
  eexists _, _. split; [lia|]. rewrite <- ?app_assoc. reflexivity.
Qed.

(** *** Registration with the statistics writer *)

(** What the events before the two loops amount to, when a statistics
    writer exists: no loop has started and nothing is registered. *)
Lemma before_forwarding_quiet cfg sl lag next_reconnect now sw c1 c2 c3 c4 c5 c6 :
  let before := paced (backoff lag next_reconnect now) ++ created (Some sw)
                  ++ [EvConnect Dst c1 c2 c3; EvConnect Src c4 c5 c6]
                  ++ (reset_slots cfg sl).1 in
  Forall (λ ev, ¬ forwarding ev ∧ ¬ is_add_socket ev ∧ ¬ is_remove_socket ev) before
  ∧ registered before = ∅.
Proof.
  unfold backoff, reset_slots.
  destruct (now <? next_reconnect), (reconnect cfg); cbn;
    (split; [repeat constructor; tauto | done]).
Qed.

(** Lines 122 to 131 when a statistics writer exists: the two loops, and then
    either the wait and the two [remove_socket] calls, or an end without any
    [remove_socket]. *)
Lemma forward_both_with_stats cfg sw src dst now :
  let x := forward_both cfg (Some sw) src dst now in
  ∃ tail,
    events x = started (start_backward cfg src dst now)
                 ++ events (route src dst cfg "[SRC->DST]" now) ++ tail
    ∧ ((exit x = Returned
        ∧ tail = [EvWait true; EvRemoveSocket (Some sw) (id src);
                  EvRemoveSocket (Some sw) (id dst); EvStatsDelete])
       ∨ (exit x ≠ Returned
          ∧ tail ∈ [[EvWait false]; [EvWait true]; [EvStatsDelete];
                    [EvJoin]; [EvJoin; EvStatsDelete]; []])).
Proof.
  unfold Route.forward_both. cbn zeta.
  rewrite events_after, exit_after, <- app_assoc.
  eexists; split; [reflexivity|].
  unfold wait_and_deregister, unwind, deregister.
  destruct (start_backward cfg src dst now) as [[[] ? ?]|],
           (exit (route src dst cfg "[SRC->DST]" now)); cbn;
    first [ by left
          | right; split; [done|];
            repeat first [ apply list_elem_of_here | apply list_elem_of_further ] ].
Qed.

(** C6 (as amended).  In an iteration that has a statistics writer and whose
    two connections succeed: the registry never holds more than two
    endpoints; both endpoints are registered, source first, before anything
    of either forwarding loop happens, and none is registered after that;
    when the [try] block is left at its end, both have been deregistered;
    when it is left by an exception, no [remove_socket] call was made and
    both are still registered as the writer is deleted. *)
Theorem registration_bounded_and_ordered cfg r sl next_reconnect now sw dst src :
  new_stats cfg = Some sw →
  got (create_connection (dst_reply r) (dst_sock sl)) = inr dst →
  got (create_connection (src_reply r) (src_sock sl)) = inr src →
  let x := main (try_block cfg r sl next_reconnect now) in
  (∀ evs, evs `prefix_of` events x → (size (registered evs) ≤ 2)%nat)
  ∧ (∃ before later,
       events x = before ++ EvAddSocket (id src) :: EvAddSocket (id dst) :: later
       ∧ Forall (λ ev, ¬ forwarding ev) before
       ∧ registered before = ∅
       ∧ Forall (λ ev, ¬ is_add_socket ev) later)
  ∧ (exit x = Returned → registered (events x) = ∅)
  ∧ (∀ e, exit x = Raised e →
       Forall (λ ev, ¬ is_remove_socket ev) (events x)
       ∧ registered (events x) = {[id src]} ∪ {[id dst]}).
Proof.
  intros Hstats Hdst Hsrc x. subst x.
  rewrite (try_block_connected _ _ _ _ _ _ _ Hdst Hsrc), Hstats.
  cbn [main]. rewrite events_after, exit_after.
  set (start := forward_start r sl next_reconnect now).
  set (sl' := Slots _ _).
  destruct (before_forwarding_quiet cfg sl' (lag r) next_reconnect now sw
              (resumed_at (backoff (lag r) next_reconnect now)) (dst_sock sl)
              (inr (id dst))
              (resumed_at (backoff (lag r) next_reconnect now)
               + Z.of_N (spent (create_connection (dst_reply r) (dst_sock sl))))
              (src_sock sl) (inr (id src))) as [Hbefore Hnone].
  destruct (forward_both_with_stats cfg sw src dst start) as (tail & -> & Htail).
  destruct (forwarding_quiet _ (route_forwarding force_break src dst cfg "[SRC->DST]" start))
    as (_ & _ & Hfwd & Hfwdq).
  set (fwd := events (route src dst cfg "[SRC->DST]" start)) in *.
  set (before := paced _ ++ created _ ++ _ ++ (reset_slots cfg sl').1) in *.
  assert ((paced (backoff (lag r) next_reconnect now) ++ created (Some sw)
             ++ [EvConnect Dst (resumed_at (backoff (lag r) next_reconnect now))
                           (dst_sock sl) (inr (id dst));
                 EvConnect Src (resumed_at (backoff (lag r) next_reconnect now)
                                + Z.of_N (spent (create_connection (dst_reply r) (dst_sock sl))))
                           (src_sock sl) (inr (id src))]
             ++ (reset_slots cfg sl').1 ++ add_sockets (Some sw) src dst)
            ++ started (start_backward cfg src dst start) ++ fwd ++ tail
          = before ++ EvAddSocket (id src) :: EvAddSocket (id dst)
              :: started (start_backward cfg src dst start) ++ fwd ++ tail) as ->.
  { subst before. cbn [add_sockets]. rewrite <- !app_assoc. reflexivity. }
  assert (Forall (λ ev, ¬ is_add_socket ev)
                 (started (start_backward cfg src dst start) ++ fwd ++ tail)) as Hlater.
  { rewrite !Forall_app. repeat split.
    - destruct (start_backward cfg src dst start); repeat constructor; tauto.
    - eapply Forall_impl; [exact Hfwdq|]. cbn. tauto.
    - destruct Htail as [[_ ->]|[_ Hin]]; [repeat constructor; tauto|].
      repeat (apply elem_of_cons in Hin as [->|Hin]; [repeat constructor; tauto|]).
      by apply elem_of_nil in Hin. }
  assert (registered (before ++ EvAddSocket (id src) :: EvAddSocket (id dst)
                        :: started (start_backward cfg src dst start) ++ fwd)
          = {[id src]} ∪ {[id dst]}) as Hboth.
  { rewrite registered_app, Hnone. cbn. rewrite foldl_app, Hfwd.
    destruct (start_backward cfg src dst start); cbn; set_solver. }
  split; [|split; [|split]].
  - intros evs [rest Hrest].
    etrans; [|apply (size_pair (id src) (id dst))].
    apply subseteq_size, registry_within; [set_solver|].
    assert (Forall (λ ev, ∀ sock, ev = EvAddSocket sock →
                          sock ∈ ({[id src]} ∪ {[id dst]} : gset Z))
                   (evs ++ rest)) as Hall; [|by apply Forall_app in Hall as [? _]].
    rewrite <- Hrest. apply Forall_app; split.
    + eapply Forall_impl; [exact Hbefore|]. intros ev (_ & Hadd & _) sock ->. by destruct Hadd.
    + repeat (apply Forall_cons; split; [intros sock [= <-]; set_solver|]).
      eapply Forall_impl; [exact Hlater|]. intros ev Hadd sock ->. by destruct Hadd.
  - exists before, (started (start_backward cfg src dst start) ++ fwd ++ tail).
    repeat split; [|done..].
    eapply Forall_impl; [exact Hbefore|]. cbn. tauto.
  - intros Hret. destruct Htail as [[_ ->]|[Hne _]]; [|done].
    replace (before ++ EvAddSocket (id src) :: EvAddSocket (id dst)
               :: started (start_backward cfg src dst start) ++ fwd ++ _)
      with ((before ++ EvAddSocket (id src) :: EvAddSocket (id dst)
               :: started (start_backward cfg src dst start) ++ fwd)
              ++ [EvWait true; EvRemoveSocket (Some sw) (id src);
                  EvRemoveSocket (Some sw) (id dst); EvStatsDelete])
      by (rewrite <- !app_assoc; cbn; by rewrite <- !app_assoc).
    rewrite registered_app, Hboth. cbn. set_solver.
  - intros e Hraised. destruct Htail as [[Hret _]|[_ Hin]]; [congruence|].
    assert (Forall (λ ev, ¬ is_remove_socket ev) tail
            ∧ ∀ reg, foldl registry_step reg tail = reg) as [Htl Hkeep].
    { repeat (apply elem_of_cons in Hin as [->|Hin]; [split; [repeat constructor; tauto|done]|]).
      by apply elem_of_nil in Hin. }
    split.
    + rewrite Forall_app. split; [eapply Forall_impl; [exact Hbefore|]; cbn; tauto|].
      repeat (apply Forall_cons; split; [tauto|]).
      rewrite !Forall_app. repeat split.
      * destruct (start_backward cfg src dst start); repeat constructor; tauto.
      * eapply Forall_impl; [exact Hfwdq|]. cbn. tauto.
      * exact Htl.
    + replace (before ++ EvAddSocket (id src) :: EvAddSocket (id dst)
               :: started (start_backward cfg src dst start) ++ fwd ++ tail)
        with ((before ++ EvAddSocket (id src) :: EvAddSocket (id dst)
               :: started (start_backward cfg src dst start) ++ fwd) ++ tail)
        by (rewrite <- !app_assoc; cbn; by rewrite <- !app_assoc).
      by rewrite registered_app, Hboth, Hkeep.
Qed.

(** *** Exceptions *)

(** Nothing in the [try] block logs an error: only the handler does. *)
Lemma forward_both_logs_no_error cfg stats src dst now :
  Forall (λ ev, ¬ is_error_log ev) (events (forward_both cfg stats src dst now)).
Proof.
  unfold Route.forward_both. rewrite events_after, !Forall_app. repeat split.
  - destruct (start_backward cfg src dst now); repeat constructor; tauto.
  - destruct (forwarding_quiet _ (route_forwarding force_break src dst cfg "[SRC->DST]" now))
      as (_ & _ & _ & Hq).
    eapply Forall_impl; [exact Hq|]. cbn. tauto.
  - unfold wait_and_deregister, unwind, deregister.
    destruct (start_backward cfg src dst now) as [[[] ? ?]|],
             (exit (route src dst cfg "[SRC->DST]" now)), stats; cbn;
      repeat constructor; tauto.
Qed.

Lemma try_block_logs_no_error cfg r sl next_reconnect now :
  Forall (λ ev, ¬ is_error_log ev)
         (events (main (try_block cfg r sl next_reconnect now))).
Proof.
  assert (Forall (λ ev, ¬ is_error_log ev)
                 (paced (backoff (lag r) next_reconnect now))) as Hpaced.
  { unfold backoff. destruct (now <? next_reconnect); repeat constructor; tauto. }
  assert (Forall (λ ev, ¬ is_error_log ev) (created (new_stats cfg))
          ∧ Forall (λ ev, ¬ is_error_log ev) (delete_stats (new_stats cfg)))
    as [Hnew Hdel].
  { destruct (new_stats cfg); repeat constructor; tauto. }
  destruct (got (create_connection (dst_reply r) (dst_sock sl))) as [e|dst] eqn:Hdst.
  { rewrite (try_block_dst_fails _ _ _ _ _ _ Hdst). cbn [main events].
    rewrite !Forall_app. repeat split; try done. repeat constructor; tauto. }
  destruct (got (create_connection (src_reply r) (src_sock sl))) as [e|src] eqn:Hsrc.
  { rewrite (try_block_src_fails _ _ _ _ _ _ _ Hdst Hsrc). cbn [main events].
    rewrite !Forall_app. repeat split; try done. repeat constructor; tauto. }
  rewrite (try_block_connected _ _ _ _ _ _ _ Hdst Hsrc). cbn [main].
  rewrite events_after, !Forall_app. repeat split; try done.
  - repeat constructor; tauto.
  - unfold reset_slots. destruct (reconnect cfg); repeat constructor; tauto.
  - destruct (new_stats cfg); repeat constructor; tauto.
  - apply forward_both_logs_no_error.
Qed.

(** An exception raised on the thread of [run] leaves the [try] block. *)
Lemma raised_leaves_try_block cfg r sl next_reconnect now e :
  RaisedOnRunThread force_break cfg r sl next_reconnect now e →
  exit (main (try_block cfg r sl next_reconnect now)) = Raised e.
Proof.
  intros [Hdst|dst Hdst Hsrc|dst src Hdst Hsrc Hfwd Hbkwd].
  - by rewrite (try_block_dst_fails _ _ _ _ _ _ Hdst).
  - by rewrite (try_block_src_fails _ _ _ _ _ _ _ Hdst Hsrc).
  - rewrite (try_block_connected _ _ _ _ _ _ _ Hdst Hsrc).
    cbn [main]. rewrite exit_after. unfold Route.forward_both. rewrite exit_after.
    rewrite (route_raises _ _ _ _ _ _ _ Hfwd). unfold unwind.
    destruct (start_backward cfg src dst _) as [b|]; [|done].
    specialize (Hbkwd b eq_refl). by destruct (exit b).
Qed.

(** Conversely, the [try] block is left by an exception only if it was
    raised on the thread of [run]. *)
Lemma left_by_exception_raised cfg r sl next_reconnect now e :
  exit (main (try_block cfg r sl next_reconnect now)) = Raised e →
  RaisedOnRunThread force_break cfg r sl next_reconnect now e.
Proof.
  destruct (got (create_connection (dst_reply r) (dst_sock sl))) as [e'|dst] eqn:Hdst.
  { rewrite (try_block_dst_fails _ _ _ _ _ _ Hdst). cbn. intros [= ->].
    by apply raised_connecting_dst. }
  destruct (got (create_connection (src_reply r) (src_sock sl))) as [e'|src] eqn:Hsrc.
  { rewrite (try_block_src_fails _ _ _ _ _ _ _ Hdst Hsrc). cbn. intros [= ->].
    by eapply raised_connecting_src. }
  rewrite (try_block_connected _ _ _ _ _ _ _ Hdst Hsrc). cbn [main].
  rewrite exit_after. unfold Route.forward_both. rewrite exit_after.
  destruct (exit (route src dst cfg "[SRC->DST]" _)) as [|e'| |] eqn:Hfwd; [| |done..].
  - unfold wait_and_deregister, deregister.
    by destruct (start_backward cfg src dst _) as [[[] ? ?]|], (new_stats cfg).
  - unfold unwind.
    destruct (start_backward cfg src dst _) as [b|] eqn:Hbkwd.
    + destruct (exit b) eqn:Hb; try done; intros [= ->];
        (eapply raised_forwarding; [done..|by apply route_raised_inv|]);
        intros b'; rewrite Hbkwd; intros [= <-]; by rewrite Hb.
    + intros [= ->]. eapply raised_forwarding; [done..|by apply route_raised_inv|].
      intros b'. by rewrite Hbkwd.
Qed.

(** C10 (as amended).  The forwarding loop has no handler: an exception
    raised by one of its reads or writes leaves it.  When a
    [socket::exception] is raised on the thread of [run], by a connection or
    by the forward loop, the handler of [run] logs it as the last thing of
    the iteration, and the iteration is over without [run] being left; the
    next iteration follows if [cfg.reconnect] is true and the flag is not
    set, otherwise [run] returns.  Nothing else is logged as an error: what
    is raised in the backward loop never is. *)
Theorem socket_error_caught_and_logged cfg r rounds sl next_reconnect now :
  let it := try_catch cfg r sl next_reconnect now in
  let again := run_loop cfg rounds (slots_after it) (next_reconnect_after it)
                 (ends_at (main it)) in
  (∀ src dst desc t e,
     thrown_in (id src) (id dst) e (events (route src dst cfg desc t)) →
     exit (route src dst cfg desc t) = Raised e)
  ∧ (∀ what,
       RaisedOnRunThread force_break cfg r sl next_reconnect now (SocketException what) →
       exit (main it) = Returned
       ∧ last (events (main it)) = Some (EvLog (LogError what))
       ∧ run_loop cfg (r :: rounds) sl next_reconnect now
         = if reconnect cfg && negb (force_break (ends_at (main it)))
           then RunResult (after (events (main it)) (thread again))
                          (option_list (backward it) ++ backward_threads again)
                          (slots_left again)
           else RunResult (main it) (option_list (backward it)) (slots_after it))
  ∧ (∀ ev, ev ∈ events (main it) → is_error_log ev →
       ∃ what, ev = EvLog (LogError what)
               ∧ RaisedOnRunThread force_break cfg r sl next_reconnect now
                   (SocketException what)).
Proof.
  intros it again.
  pose proof (try_block_logs_no_error cfg r sl next_reconnect now) as Hquiet.
  split; [intros; by apply route_raises|]. split.
  - intros what Hraised.
    pose proof (raised_leaves_try_block _ _ _ _ _ _ Hraised) as Hexit.
    assert (main it
            = Exec Returned
                (events (main (try_block cfg r sl next_reconnect now))
                   ++ [EvLog (LogError what)])
                (ends_at (main (try_block cfg r sl next_reconnect now)))) as Hit.
    { subst it. unfold Route.try_catch. by rewrite Hexit. }
    split; [by rewrite Hit|].
    split; [rewrite Hit; apply last_snoc|].
    subst again. cbn [Route.run_loop]. fold it.
    assert (exit (main it) = Returned) as -> by (by rewrite Hit).
    reflexivity.
  - intros ev Hin Hlog. subst it. unfold Route.try_catch in Hin.
    rewrite Forall_forall in Hquiet.
    destruct (exit (main (try_block cfg r sl next_reconnect now)))
      as [|[what|what]| |] eqn:Hexit;
      try (by destruct (Hquiet ev Hin)).
    cbn in Hin. apply elem_of_app in Hin as [Hin|Hin]; [by destruct (Hquiet ev Hin)|].
    apply list_elem_of_singleton in Hin as ->.
    exists what. split; [done|]. by apply left_by_exception_raised.
Qed.

(** *** The two statements that are not under their [if] *)

(** Lines 112 to 114 leave [dst_sock] empty whatever [cfg.reconnect] is, and
    empty [src_sock] only if [cfg.reconnect] is false. *)
Lemma reset_slots_after cfg sl :
  (reset_slots cfg sl).2
  = Slots (if reconnect cfg then src_sock sl else None) None.
Proof. unfold reset_slots. by destruct (reconnect cfg), sl. Qed.

(** After an iteration whose two connections succeeded the destination's
    slot is empty; the source's slot keeps what [create_connection] left in
    it if [cfg.reconnect] is true. *)
Lemma connected_iteration_slots cfg r sl next_reconnect now dst src :
  got (create_connection (dst_reply r) (dst_sock sl)) = inr dst →
  got (create_connection (src_reply r) (src_sock sl)) = inr src →
  slots_after (try_block cfg r sl next_reconnect now)
  = Slots (if reconnect cfg
           then slot_after (create_connection (src_reply r) (src_sock sl))
           else None)
          None.
Proof.
  intros Hdst Hsrc. rewrite (try_block_connected _ _ _ _ _ _ _ Hdst Hsrc).
  cbn [slots_after]. by rewrite reset_slots_after.
Qed.

(** Without a statistics writer, what follows the wait is the call of
    [remove_socket] for the destination through the null handle, and only
    that. *)
Lemma deregister_without_stats src dst now :
  deregister None src dst now
  = Exec (Undefined NullStatsDereference) [EvRemoveSocket None (id dst)] now.
Proof. reflexivity. Qed.

(** Hence every iteration without a statistics writer whose two loops come
    to an end, the forward one by returning, ends in that call. *)
Lemma null_stats_remove_reached cfg r sl next_reconnect now dst src b :
  new_stats cfg = None →
  got (create_connection (dst_reply r) (dst_sock sl)) = inr dst →
  got (create_connection (src_reply r) (src_sock sl)) = inr src →
  exit (route src dst cfg "[SRC->DST]" (forward_start r sl next_reconnect now))
    = Returned →
  start_backward cfg src dst (forward_start r sl next_reconnect now) = Some b →
  exit b ≠ Blocked →
  let it := try_block cfg r sl next_reconnect now in
  exit (main it) = Undefined NullStatsDereference
  ∧ last (events (main it)) = Some (EvRemoveSocket None (id dst)).
Proof.
  intros Hstats Hdst Hsrc Hfwd Hbkwd Hb it. subst it.
  rewrite (try_block_connected _ _ _ _ _ _ _ Hdst Hsrc), Hstats.
  unfold Route.forward_both. rewrite Hfwd, Hbkwd. unfold wait_and_deregister.
  assert (match exit b with
          | Blocked =>
              Exec Blocked [EvWait true]
                (ends_at (route src dst cfg "[SRC->DST]"
                            (forward_start r sl next_reconnect now)))
          | _ =>
              after [EvWait true]
                (deregister None src dst
                   (ends_at (route src dst cfg "[SRC->DST]"
                               (forward_start r sl next_reconnect now))
                    `max` ends_at b))
          end
          = after [EvWait true]
              (deregister None src dst
                 (ends_at (route src dst cfg "[SRC->DST]"
                             (forward_start r sl next_reconnect now))
                  `max` ends_at b))) as ->
    by (by destruct (exit b)).
  rewrite deregister_without_stats.
  cbn [main exit events after]. split; [done|].
  change [EvWait true; EvRemoveSocket None (id dst)]
    with ([EvWait true] ++ [EvRemoveSocket None (id dst)]).
  rewrite !app_assoc. apply last_snoc.
Qed.

(** C3.  With [cfg.bidir] false, an iteration whose two connections succeed
    and whose forward loop returns goes on to [route_bkwd.wait()] although no
    backward loop was started: the handle is the future without shared state,
    the wait on it is the last thing the thread of [run] does, and what
    follows is undefined. *)
Theorem unidirectional_waits_on_invalid_future cfg r sl next_reconnect now dst src :
  bidir cfg = false →
  got (create_connection (dst_reply r) (dst_sock sl)) = inr dst →
  got (create_connection (src_reply r) (src_sock sl)) = inr src →
  exit (route src dst cfg "[SRC->DST]" (forward_start r sl next_reconnect now))
    = Returned →
  let it := try_block cfg r sl next_reconnect now in
  backward it = None
  ∧ exit (main it) = Undefined WaitOnInvalidFuture
  ∧ last (events (main it)) = Some (EvWait false).
Proof.
  intros Huni Hdst Hsrc Hfwd it. subst it.
  rewrite (try_block_connected _ _ _ _ _ _ _ Hdst Hsrc).
  unfold Route.forward_both, Route.start_backward. rewrite Huni, Hfwd.
  cbn [backward main exit events after wait_and_deregister started].
  repeat split. rewrite !app_assoc. apply last_snoc.
Qed.

End RunFacts.

(** ** Concrete runs *)

(** The scenario of the spec, section 8: a buffer of 1316 bytes, one message
    of 500 bytes, [write] reports 500; the loop does one read and one write
    and then waits in the next read. *)
Example one_message_relayed :
  let payload := replicate 500 x2a in
  let src := Endpoint 1 [ReadOk payload 7] [] in
  let dst := Endpoint 2 [] [WriteOk 500 1] in
  let cfg := Config 1316 false false EmptyString 0 in
  Route.route never_set src dst cfg "[SRC->DST]" 0
  = Exec Blocked
         [EvLog (LogStarted "[SRC->DST]"); EvRead 1 (-1) (inr payload);
          EvWrite 2 payload (inr 500)]
         8.
Proof. vm_compute. reflexivity. Qed.

(** A payload larger than the buffer does not reach the destination whole:
    the bound on the payloads in [route_writes_what_it_read] is needed. *)
Example oversized_payload_cut :
  let src := Endpoint 1 [ReadOk [x01; x02; x03] 1] [] in
  let dst := Endpoint 2 [] [WriteOk 2 1] in
  let cfg := Config 2 false false EmptyString 0 in
  written (events (Route.route never_set src dst cfg "[SRC->DST]" 0)) = [[x01; x02]].
Proof. vm_compute. reflexivity. Qed.


Lemma zero_read_retries_witness :
  never_set 0 = false
  ∧ ∃ got,
      events (Route.route_loop never_set 1 2 "[SRC->DST]"
                [ReadOk [] 3; ReadOk [x01] 1] [WriteOk 1 1] [x00; x00] 0) !! 2%nat
      = Some (EvRead 1 (-1) got).
Proof.
  split; [reflexivity|].
  destruct (zero_read_retries never_set 1 2 "[SRC->DST]" [] 3 [ReadOk [x01] 1]
              [WriteOk 1 1] [x00; x00] 0 eq_refl eq_refl) as (_ & _ & Hnext & _).
  apply Hnext; [reflexivity | discriminate].
Defined.

(** The scenario of the spec: [write] reports 300 for a read of 500 bytes. *)
Lemma write_mismatch_logged_not_retried_witness :
  let payload := replicate 500 x2a in
  let buffer := replicate 1316 x00 in
  let x := Route.route_loop never_set 1 2 "[SRC->DST]"
             [ReadOk payload 3] [WriteOk 300 1] buffer 0 in
  300 ≠ Z.of_nat (length (take (length buffer) payload))
  ∧ events x = [EvRead 1 (-1) (inr payload);
                EvWrite 2 payload (inr 300);
                EvLog (LogWriteMismatch "[SRC->DST]" 300 500)]
  ∧ exit x = Blocked.
Proof.
  intros payload buffer x.
  assert (300 ≠ Z.of_nat (length (take (length buffer) payload))) as Hdiff
    by (vm_compute; discriminate).
  split; [exact Hdiff|].
  destruct (write_mismatch_logged_not_retried never_set 1 2 "[SRC->DST]"
              payload 3 [] 300 1 [] buffer 0 eq_refl) as (Hx & _).
  - vm_compute; discriminate.
  - vm_compute; reflexivity.
  - vm_compute; split; discriminate.
  - exact Hdiff.
  - subst x. rewrite Hx. vm_compute. split; reflexivity.
Defined.

(** A unidirectional relay that is cancelled at tick 5 while its forward loop
    waits in a read; the read returns at tick 10 with nothing. *)
Lemma unidirectional_waits_on_invalid_future_witness :
  let src := Endpoint 1 [ReadOk [] 10] [] in
  let dst := Endpoint 2 [] [] in
  let cfg := Config 1316 false false EmptyString 0 in
  let r := Round 0 (Connects dst 0) (Connects src 0) in
  exit (Route.route (set_at 5) src dst cfg "[SRC->DST]" 0) = Returned
  ∧ exit (main (Route.try_block (set_at 5) cfg r (Slots None None) 0 0))
    = Undefined WaitOnInvalidFuture.
Proof.
  intros src dst cfg r. split; [reflexivity|].
  exact (proj1 (proj2 (unidirectional_waits_on_invalid_future (set_at 5) cfg r
                         (Slots None None) 0 0 dst src
                         eq_refl eq_refl eq_refl eq_refl))).
Defined.

(** C1.  No statistics writer ([stats_file] is empty), both directions, the
    flag set at tick 5: both loops return at tick 10, the wait is over, and
    [stats->remove_socket(dst->id())] of line 131 is executed through the null
    handle; the call for [src] on line 130 is not made. *)
Theorem remove_socket_through_null_handle :
  let src := Endpoint 1 [ReadOk [] 10] [] in
  let dst := Endpoint 2 [ReadOk [] 10] [] in
  let cfg := Config 1316 true false EmptyString 1000 in
  let res := Route.run (set_at 5) cfg [Round 0 (Connects dst 0) (Connects src 0)] 0 in
  new_stats cfg = None
  ∧ events (thread res)
    = [EvNow 0; EvConnect Dst 0 None (inr 2); EvConnect Src 0 None (inr 1);
       EvSlotReset Src; EvSlotReset Dst; EvAsync "[DST->SRC]";
       EvLog (LogStarted "[SRC->DST]"); EvRead 1 (-1) (inr []);
       EvLog (LogZeroRead "[SRC->DST]"); EvWait true; EvRemoveSocket None 2]
  ∧ exit (thread res) = Undefined NullStatsDereference.
Proof. vm_compute. repeat split. Qed.

(** C2.  Both sides listen, [cfg.reconnect] is true, the source fails in the
    first read.  After the first successful connection the destination's
    listener is released all the same: the second iteration finds the
    destination's slot empty, so that its listener has to be opened anew,
    while the source's slot still holds listener 9. *)
Theorem dst_listener_released_despite_reconnect :
  let src := Endpoint 1 [ReadThrows (SocketException "closed") 10] [] in
  let dst := Endpoint 2 [] [] in
  let cfg := Config 1316 false true EmptyString 0 in
  let r := Round 0 (Accepts 8 dst 0) (Accepts 9 src 0) in
  let res := Route.run never_set cfg [r; r] 0 in
  reconnect cfg = true
  ∧ slots_after (Route.try_catch never_set cfg r (Slots None None) 0 0)
    = Slots (Some 9) None
  ∧ events (thread res)
    = [EvNow 0; EvConnect Dst 0 None (inr 2); EvConnect Src 0 None (inr 1);
       EvSlotReset Dst; EvLog (LogStarted "[SRC->DST]");
       EvRead 1 (-1) (inl (SocketException "closed")); EvLog (LogError "closed");
       EvNow 10; EvSleepUntil 1000000000 1000000000;
       EvConnect Dst 1000000000 None (inr 2);
       EvConnect Src 1000000000 (Some 9) (inr 1);
       EvSlotReset Dst; EvLog (LogStarted "[SRC->DST]");
       EvRead 1 (-1) (inl (SocketException "closed")); EvLog (LogError "closed")].
Proof. vm_compute. repeat split. Qed.

(** C4, the claim as stated fails.  Reconnecting, the destination refuses at
    once; the second iteration starts at tick 0 and sleeps until the deadline
    at tick 1000000000.  The flag is set at tick 500, during the sleep: the
    sleep is over at the deadline, not before, and the Connection Factory is
    called after it. *)
Lemma cancelled_sleep_not_cut_short :
  let cfg := Config 1316 false true EmptyString 0 in
  let refused := Round 0 (Fails (SocketException "refused") 0)
                         (Fails (SocketException "refused") 0) in
  let evs := events (thread (Route.run (set_at 500) cfg [refused; refused] 0)) in
  set_at 500 0 = false ∧ set_at 500 500 = true
  ∧ evs = [EvNow 0; EvConnect Dst 0 None (inl (SocketException "refused"));
           EvLog (LogError "refused");
           EvNow 0; EvSleepUntil 1000000000 1000000000;
           EvConnect Dst 1000000000 None (inl (SocketException "refused"));
           EvLog (LogError "refused")]
  ∧ ¬ ∃ deadline woke, EvSleepUntil deadline woke ∈ evs ∧ woke < deadline.
Proof.
  intros cfg refused evs.
  assert (evs = [EvNow 0; EvConnect Dst 0 None (inl (SocketException "refused"));
                 EvLog (LogError "refused");
                 EvNow 0; EvSleepUntil 1000000000 1000000000;
                 EvConnect Dst 1000000000 None (inl (SocketException "refused"));
                 EvLog (LogError "refused")]) as Hevs by (vm_compute; reflexivity).
  split; [reflexivity|]. split; [reflexivity|]. split; [exact Hevs|].
  rewrite Hevs. intros (deadline & woke & Hin & Hlt).
  repeat (apply elem_of_cons in Hin as [Heq|Hin]; [inversion Heq; subst; lia|]).
  by apply elem_of_nil in Hin.
Qed.

Lemma backoff_sleep_lasts_to_deadline_witness :
  let cfg := Config 1316 false true EmptyString 0 in
  let refused := Round 0 (Fails (SocketException "refused") 0)
                         (Fails (SocketException "refused") 0) in
  0 < 1000000000
  ∧ (∃ t, 0 ≤ t < 1000000000 ∧ set_at 500 t = true)
  ∧ ∃ woke got rest,
      1000000000 ≤ woke
      ∧ events (main (Route.try_block (set_at 500) cfg refused (Slots None None)
                        1000000000 0))
        = EvNow 0 :: EvSleepUntil 1000000000 woke
            :: created (new_stats cfg) ++ EvConnect Dst woke None got :: rest.
Proof.
  intros cfg refused.
  assert (0 < 1000000000) as Hahead by lia.
  assert (∃ t, 0 ≤ t < 1000000000 ∧ set_at 500 t = true) as Hset
    by (exists 500; split; [lia|reflexivity]).
  split; [exact Hahead|]. split; [exact Hset|].
  exact (backoff_sleep_lasts_to_deadline (set_at 500) cfg refused (Slots None None)
           1000000000 0 Hahead Hset).
Defined.

(** C5, the claim as stated fails.  Reconnecting, every connection of the
    destination is refused after 5 ticks.  The second iteration starts 5
    ticks after the first; and the third attempt to connect is made 5 ticks
    after the second. *)
Lemma consecutive_iterations_less_than_a_second_apart :
  let cfg := Config 1316 false true EmptyString 0 in
  let refused := Round 0 (Fails (SocketException "refused") 5)
                         (Fails (SocketException "refused") 5) in
  let evs := events (thread (Route.run never_set cfg [refused; refused; refused] 0)) in
  starts evs = [0; 5; 1000000005]
  ∧ attempts evs = [0; 1000000000; 1000000005]
  ∧ ¬ (∀ k a a', starts evs !! k = Some a → starts evs !! S k = Some a' →
                 a + seconds 1 ≤ a')
  ∧ ¬ (∀ k b b', attempts evs !! k = Some b → attempts evs !! S k = Some b' →
                 b + seconds 1 ≤ b').
Proof.
  intros cfg refused evs.
  assert (starts evs = [0; 5; 1000000005]) as Hs by (vm_compute; reflexivity).
  assert (attempts evs = [0; 1000000000; 1000000005]) as Ha by (vm_compute; reflexivity).
  rewrite Hs, Ha. split; [reflexivity|]. split; [reflexivity|]. split.
  - intros H. specialize (H 0%nat 0 5 eq_refl eq_refl). unfold seconds in H. lia.
  - intros H. specialize (H 1%nat 1000000000 1000000005 eq_refl eq_refl).
    unfold seconds in H. lia.
Qed.

Lemma next_attempt_a_second_after_previous_start_witness :
  let cfg := Config 1316 false true EmptyString 0 in
  let refused := Round 0 (Fails (SocketException "refused") 5)
                         (Fails (SocketException "refused") 5) in
  let evs := events (thread (Route.run never_set cfg [refused; refused; refused] 0)) in
  starts evs !! 1%nat = Some 5
  ∧ attempts evs !! 2%nat = Some 1000000005
  ∧ 5 + seconds 1 ≤ 1000000005.
Proof.
  intros cfg refused evs.
  assert (starts evs !! 1%nat = Some 5) as Hs by (vm_compute; reflexivity).
  assert (attempts evs !! 2%nat = Some 1000000005) as Ha by (vm_compute; reflexivity).
  split; [exact Hs|]. split; [exact Ha|].
  exact (next_attempt_a_second_after_previous_start never_set cfg
           [refused; refused; refused] 0 1 5 1000000005 Hs Ha).
Defined.

(** C6, the claim as stated fails.  A statistics writer exists and the
    source's first read raises: the [try] block is left by the exception, no
    [remove_socket] call is made, and both endpoints are still registered
    when the writer is deleted. *)
Lemma forwarding_error_leaves_endpoints_registered :
  let src := Endpoint 1 [ReadThrows (SocketException "connection lost") 3] [] in
  let dst := Endpoint 2 [] [] in
  let cfg := Config 1316 false false "stats.csv" 1000 in
  let it := Route.try_block never_set cfg (Round 0 (Connects dst 0) (Connects src 0))
              (Slots None None) 0 0 in
  exit (main it) = Raised (SocketException "connection lost")
  ∧ events (main it)
    = [EvNow 0; EvStatsNew (StatsWriter "stats.csv" 1000);
       EvConnect Dst 0 None (inr 2); EvConnect Src 0 None (inr 1);
       EvSlotReset Src; EvSlotReset Dst; EvAddSocket 1; EvAddSocket 2;
       EvLog (LogStarted "[SRC->DST]");
       EvRead 1 (-1) (inl (SocketException "connection lost"));
       EvStatsDelete]
  ∧ size (registered (events (main it))) = 2%nat.
Proof. vm_compute. repeat split. Qed.

(** Both directions, a statistics writer, the flag set at tick 5: both loops
    return and both endpoints are deregistered. *)
Lemma registration_bounded_and_ordered_witness :
  let src := Endpoint 1 [ReadOk [] 10] [] in
  let dst := Endpoint 2 [ReadOk [] 10] [] in
  let cfg := Config 1316 true false "stats.csv" 1000 in
  let r := Round 0 (Connects dst 0) (Connects src 0) in
  let x := main (Route.try_block (set_at 5) cfg r (Slots None None) 0 0) in
  new_stats cfg = Some (StatsWriter "stats.csv" 1000)
  ∧ exit x = Returned
  ∧ registered (events x) = ∅.
Proof.
  intros src dst cfg r x.
  assert (exit x = Returned) as Hret by reflexivity.
  split; [reflexivity|]. split; [exact Hret|].
  destruct (registration_bounded_and_ordered (set_at 5) cfg r (Slots None None) 0 0
              (StatsWriter "stats.csv" 1000) dst src eq_refl eq_refl eq_refl)
    as (_ & _ & Hback & _).
  exact (Hback Hret).
Defined.

(** C10, the claim as stated fails.  Both directions; the first read of the
    backward loop raises a [socket::exception] at tick 3.  The exception ends
    the backward loop and stays in its future: [run] waits for the loop, goes
    on, and returns without having caught or logged anything. *)
Lemma backward_error_never_logged :
  let src := Endpoint 1 [ReadOk [] 10] [] in
  let dst := Endpoint 2 [ReadThrows (SocketException "connection lost") 3] [] in
  let cfg := Config 1316 true true "stats.csv" 1000 in
  let res := Route.run (set_at 5) cfg [Round 0 (Connects dst 0) (Connects src 0)] 0 in
  backward_threads res
  = [Exec (Raised (SocketException "connection lost"))
          [EvLog (LogStarted "[DST->SRC]");
           EvRead 2 (-1) (inl (SocketException "connection lost"))] 3]
  ∧ exit (thread res) = Returned
  ∧ events (thread res)
    = [EvNow 0; EvStatsNew (StatsWriter "stats.csv" 1000);
       EvConnect Dst 0 None (inr 2); EvConnect Src 0 None (inr 1);
       EvSlotReset Dst; EvAddSocket 1; EvAddSocket 2;
       EvAsync "[DST->SRC]"; EvLog (LogStarted "[SRC->DST]");
       EvRead 1 (-1) (inr []); EvLog (LogZeroRead "[SRC->DST]");
       EvWait true;
       EvRemoveSocket (Some (StatsWriter "stats.csv" 1000)) 1;
       EvRemoveSocket (Some (StatsWriter "stats.csv" 1000)) 2;
       EvStatsDelete]
  ∧ Forall (λ ev, ¬ is_error_log ev) (events (thread res)).
Proof.
  vm_compute. split; [reflexivity|]. split; [reflexivity|]. split; [reflexivity|].
  repeat constructor; tauto.
Qed.

(** The destination refuses the connection; no reconnecting. *)
Lemma socket_error_caught_and_logged_witness :
  let cfg := Config 1316 false false EmptyString 0 in
  let refused := Round 0 (Fails (SocketException "refused") 5)
                         (Fails (SocketException "refused") 5) in
  let res := Route.run never_set cfg [refused] 0 in
  RaisedOnRunThread never_set cfg refused (Slots None None) 0 0 (SocketException "refused")
  ∧ exit (thread res) = Returned
  ∧ last (events (thread res)) = Some (EvLog (LogError "refused")).
Proof.
  intros cfg refused res.
  assert (RaisedOnRunThread never_set cfg refused (Slots None None) 0 0
            (SocketException "refused")) as Hraised
    by (apply raised_connecting_dst; reflexivity).
  split; [exact Hraised|].
  destruct (socket_error_caught_and_logged never_set cfg refused [] (Slots None None)
              0 0) as (_ & Hcaught & _).
  destruct (Hcaught "refused" Hraised) as (Hret & Hlast & Hrun).
  subst res. unfold Route.run. rewrite Hrun. cbn [reconnect cfg andb thread].
  split; [exact Hret | exact Hlast].
Defined.


(** ** The forwarding loop: further facts *)

Section RouteLoopMore.

Variable force_break : Z → bool.
Variables (sock_src sock_dst : Z) (desc : string).

Local Abbreviation route_loop := (Route.route_loop force_break sock_src sock_dst desc).

(** The clock does not run backwards while the loop runs. *)
Lemma route_loop_ends_later src_reads : ∀ dst_writes buffer now,
  now ≤ ends_at (route_loop src_reads dst_writes buffer now).
Proof.
  induction src_reads as [|[payload took|e took] src_reads IH];
    intros dst_writes buffer now; simpl;
    (destruct (force_break now); simpl; [lia|]); [lia| |lia].
  destruct (_ =? 0); simpl; [etrans; [|apply IH]; lia|].
  destruct dst_writes as [|[bytes_sent took'|e took'] dst_writes]; simpl; [lia| |lia].
  destruct (negb _); simpl; (etrans; [|apply IH]); lia.
Qed.

(** The loop itself never goes wrong: it returns, is left by an exception,
    or is stuck in a call. *)
Lemma route_loop_defined src_reads : ∀ dst_writes buffer now u,
  exit (route_loop src_reads dst_writes buffer now) ≠ Undefined u.
Proof.
  induction src_reads as [|[payload took|e took] src_reads IH];
    intros dst_writes buffer now u; simpl;
    (destruct (force_break now); simpl; [done|]); [done| |done].
  destruct (_ =? 0); simpl; [apply IH|].
  destruct dst_writes as [|[bytes_sent took'|e took'] dst_writes]; simpl; [done| |done].
  destruct (negb _); simpl; apply IH.
Qed.

End RouteLoopMore.

Section RouteMore.

Variable force_break : Z → bool.

Local Abbreviation route := (Route.route force_break).

Lemma route_ends_later src dst cfg desc now :
  now ≤ ends_at (route src dst cfg desc now).
Proof. apply route_loop_ends_later. Qed.

Lemma route_defined src dst cfg desc now u :
  exit (route src dst cfg desc now) ≠ Undefined u.
Proof. apply route_loop_defined. Qed.

(** X1.  [route] returns only through its loop test: whenever it returns,
    the flag is set at that moment.  Short of an exception, nothing but the
    flag ends the loop: not a read of 0 bytes, not a write that falls short. *)
Theorem route_returns_only_when_cancelled src dst cfg desc now :
  exit (route src dst cfg desc now) = Returned →
  force_break (ends_at (route src dst cfg desc now)) = true.
Proof.
  assert (∀ src_reads dst_writes buffer now,
            let x := Route.route_loop force_break (id src) (id dst) desc
                       src_reads dst_writes buffer now in
            exit x = Returned → force_break (ends_at x) = true) as Hloop.
  { clear now.
    induction src_reads as [|[payload took|e took] src_reads IH];
      intros dst_writes buffer now; simpl;
      (destruct (force_break now) eqn:Hflag; simpl; [done|]); [done| |done].
    destruct (_ =? 0); simpl; [apply IH|].
    destruct dst_writes as [|[bytes_sent took'|e took'] dst_writes]; simpl; [done| |done].
    destruct (negb _); simpl; apply IH. }
  apply Hloop.
Qed.

(** X2.  Nothing that was read is dropped between the read and the write:
    unless [route] is stuck in a call that never returns, the byte strings
    it handed to [write] are all the non-empty byte strings its reads
    returned, in order.  In particular the flag, which is only looked at
    before a read, never ends the loop with a message read and not written. *)
Theorem route_hands_on_all_it_read src dst cfg desc now :
  exit (route src dst cfg desc now) ≠ Blocked →
  written (events (route src dst cfg desc now))
  = filter (λ bytes, length bytes ≠ 0%nat) (received (events (route src dst cfg desc now))).
Proof.
  assert (∀ src_reads dst_writes buffer now,
            let x := Route.route_loop force_break (id src) (id dst) desc
                       src_reads dst_writes buffer now in
            exit x ≠ Blocked →
            written (events x)
            = filter (λ bytes, length bytes ≠ 0%nat) (received (events x))) as Hloop.
  { clear now.
    induction src_reads as [|[payload took|e took] src_reads IH];
      intros dst_writes buffer now; simpl;
      (destruct (force_break now); simpl; [done|]); [done| |done].
    set (got := take (length buffer) payload).
    destruct (Z.eqb_spec (Z.of_nat (length got)) 0) as [H0|H0]; simpl.
    - intros Hexit. change (received (?ev :: ?evs)) with (got :: received evs).
      rewrite filter_cons_False by lia. by apply IH.
    - rewrite const_buffer_received.
      destruct dst_writes as [|[bytes_sent took'|e took'] dst_writes]; simpl; [done| |].
      + destruct (negb _); simpl; intros Hexit;
          change (received (?ev :: ?evs)) with (got :: received evs);
          (rewrite filter_cons_True by lia); f_equal; by apply IH.
      + intros _. change (received (?ev :: ?evs)) with (got :: received evs).
        by rewrite filter_cons_True by lia. }
  apply Hloop.
Qed.

(** X3.  Whatever the source delivers, [route] never hands an empty byte
    string to [write], nor one longer than [cfg.message_size]; with a
    [message_size] of 0 it writes nothing at all. *)
Theorem route_write_sizes src dst cfg desc now :
  Forall (λ data, (0 < length data ≤ message_size cfg)%nat)
         (written (events (route src dst cfg desc now)))
  ∧ (message_size cfg = 0%nat → written (events (route src dst cfg desc now)) = []).
Proof.
  assert (∀ src_reads dst_writes buffer now,
            Forall (λ data, (0 < length data ≤ length buffer)%nat)
                   (written (events (Route.route_loop force_break (id src) (id dst) desc
                                       src_reads dst_writes buffer now)))) as Hloop.
  { clear now.
    induction src_reads as [|[payload took|e took] src_reads IH];
      intros dst_writes buffer now; simpl;
      (destruct (force_break now); simpl; [constructor|]); [constructor| |constructor].
    pose proof (refill_length buffer payload) as Hsize. cbn zeta in Hsize.
    set (got := take (length buffer) payload) in *.
    assert (length got ≤ length buffer)%nat as Hle
      by (subst got; rewrite length_take; lia).
    destruct (Z.eqb_spec (Z.of_nat (length got)) 0) as [H0|H0]; simpl.
    - rewrite <- Hsize. apply IH.
    - rewrite const_buffer_received.
      destruct dst_writes as [|[bytes_sent took'|e took'] dst_writes]; simpl;
        [constructor| |repeat constructor; lia].
      destruct (negb _); simpl; (constructor; [lia|]); rewrite <- Hsize; apply IH. }
  assert (Forall (λ data, (0 < length data ≤ message_size cfg)%nat)
                 (written (events (route src dst cfg desc now)))) as Hsizes.
  { specialize (Hloop (reads src) (writes dst) (replicate (message_size cfg) x00) now).
    by rewrite length_replicate in Hloop. }
  split; [exact Hsizes|].
  intros Hzero. rewrite Hzero in Hsizes.
  destruct (written _) as [|data datas]; [done|].
  apply Forall_cons in Hsizes as [? _]. lia.
Qed.

(** X4.  [route] reports a mismatch only where there is one: with a buffer
    of fewer than 2^64 bytes, every "write returned ..., expected ..." message
    carries the description of this loop, two counts that differ, and as the
    expected count the size of a read, between 1 and [cfg.message_size]. *)
Theorem route_mismatches_are_real src dst cfg desc now :
  Z.of_nat (message_size cfg) < 2 ^ 64 →
  Forall (λ ev, ∀ d bytes_sent bytes_read,
            ev = EvLog (LogWriteMismatch d bytes_sent bytes_read) →
            d = desc ∧ bytes_sent ≠ bytes_read
            ∧ 0 < bytes_read ≤ Z.of_nat (message_size cfg))
         (events (route src dst cfg desc now)).
Proof.
  assert (∀ src_reads dst_writes buffer now,
            Z.of_nat (length buffer) < 2 ^ 64 →
            Forall (λ ev, ∀ d bytes_sent bytes_read,
                      ev = EvLog (LogWriteMismatch d bytes_sent bytes_read) →
                      d = desc ∧ bytes_sent ≠ bytes_read
                      ∧ 0 < bytes_read ≤ Z.of_nat (length buffer))
                   (events (Route.route_loop force_break (id src) (id dst) desc
                              src_reads dst_writes buffer now))) as Hloop.
  { clear now.
    induction src_reads as [|[payload took|e took] src_reads IH];
      intros dst_writes buffer now Hcap; simpl;
      (destruct (force_break now); simpl; [constructor|]);
      [constructor| |by repeat constructor].
    pose proof (refill_length buffer payload) as Hsize. cbn zeta in Hsize.
    set (got := take (length buffer) payload) in *.
    assert (length got ≤ length buffer)%nat as Hle
      by (subst got; rewrite length_take; lia).
    destruct (Z.eqb_spec (Z.of_nat (length got)) 0) as [H0|H0]; simpl.
    - do 2 (constructor; [done|]). rewrite <- Hsize in *. by apply IH.
    - destruct dst_writes as [|[bytes_sent took'|e took'] dst_writes]; simpl;
        [by repeat constructor| |by repeat constructor].
      destruct (negb _) eqn:Hcmp; simpl; do 2 (constructor; [done|]).
      + constructor; [|rewrite <- Hsize in *; by apply IH].
        intros d s r [= <- <- <-]. split; [done|]. split; [|lia].
        intros ->. apply negb_true_iff, Z.eqb_neq in Hcmp. apply Hcmp.
        unfold to_size_t. apply Z.mod_small. lia.
      + rewrite <- Hsize in *. by apply IH. }
  intros Hcap. constructor; [done|].
  specialize (Hloop (reads src) (writes dst) (replicate (message_size cfg) x00) now).
  rewrite length_replicate in Hloop. by apply Hloop.
Qed.

End RouteMore.

(** ** The orchestrator: further facts *)

(** Closes [Forall P evs] for an explicit list [evs] and a [P] that computes. *)
Ltac each_event :=
  repeat (apply Forall_cons; split; [cbn; tauto|]); apply Forall_nil_2.

(** The same for a [P] that says what an event is not. *)
Ltac each_event_ne :=
  repeat (apply Forall_cons; split; [intros; discriminate|]); try apply Forall_nil_2.

Lemma forwarding_past_connecting ev : forwarding ev → past_connecting ev.
Proof. destruct ev as [| | | | | | | | | | | | |[]]; cbn; tauto. Qed.

(** The events past the connections are no clock samples, no sleeps, no
    connections and no constructions of a statistics writer. *)
Lemma past_connecting_quiet evs :
  Forall past_connecting evs →
  connects evs = [] ∧ src_slots_found evs = [] ∧ writers_created evs = []
  ∧ starts evs = [] ∧ attempts evs = []
  ∧ Forall (λ ev, ∀ d w, ev ≠ EvSleepUntil d w) evs.
Proof.
  induction 1 as [|ev evs Hev _ (IH1 & IH2 & IH3 & IH4 & IH5 & IH6)].
  - repeat split; constructor.
  - destruct ev as [| | | | | | | | | | | | |[]]; cbn in Hev; try tauto; cbn;
      (repeat split; [done..|]); by constructor.
Qed.

Lemma naps_quiet evs :
  starts evs = [] → naps evs = [].
Proof.
  induction evs as [|ev evs IH]; [done|].
  destruct ev; cbn; try done; intros Hs; rewrite ?IH by done; try done;
    destruct evs; by rewrite ?IH.
Qed.

Lemma naps_app evs1 evs2 :
  (∀ tnow, last evs1 ≠ Some (EvNow tnow)) →
  naps (evs1 ++ evs2) = naps evs1 ++ naps evs2.
Proof.
  induction evs1 as [|ev [|ev' evs1] IH]; intros Hlast; [done| |].
  - destruct ev; cbn; try done. by destruct (Hlast tnow).
  - specialize (IH Hlast). cbn [app naps] in *.
    destruct ev; try done. destruct ev'; try done. cbn. by rewrite IH.
Qed.

Section RunMore.

Variable force_break : Z → bool.

Local Abbreviation route := (Route.route force_break).
Local Abbreviation try_block := (Route.try_block force_break).
Local Abbreviation try_catch := (Route.try_catch force_break).
Local Abbreviation forward_both := (Route.forward_both force_break).
Local Abbreviation start_backward := (Route.start_backward force_break).
Local Abbreviation run_loop := (Route.run_loop force_break).
Local Abbreviation run := (Route.run force_break).

Lemma forward_both_past_connecting cfg stats src dst now :
  Forall past_connecting (events (forward_both cfg stats src dst now)).
Proof.
  unfold Route.forward_both. rewrite events_after, !Forall_app. repeat split.
  - destruct (start_backward cfg src dst now); cbn; each_event.
  - eapply Forall_impl; [apply route_forwarding|]. apply forwarding_past_connecting.
  - unfold wait_and_deregister, unwind, deregister.
    destruct (start_backward cfg src dst now) as [[[] ? ?]|],
             (exit (route src dst cfg "[SRC->DST]" now)), stats; cbn; each_event.
Qed.

(** The events of an iteration: pacing, the construction of the statistics
    writer if any, the connection of the destination, that of the source if
    the destination's succeeded, and then nothing of these kinds any more. *)
Lemma try_catch_events cfg r sl next_reconnect now :
  let pace := backoff (lag r) next_reconnect now in
  let conn_dst := create_connection (dst_reply r) (dst_sock sl) in
  let conn_src := create_connection (src_reply r) (src_sock sl) in
  ∃ tl,
    Forall past_connecting tl
    ∧ events (main (try_catch cfg r sl next_reconnect now))
      = paced pace ++ created (new_stats cfg)
          ++ EvConnect Dst (resumed_at pace) (dst_sock sl) (id_of (got conn_dst))
          :: match got conn_dst with
             | inl _ => tl
             | inr _ =>
                 EvConnect Src (resumed_at pace + Z.of_N (spent conn_dst)) (src_sock sl)
                           (id_of (got conn_src)) :: tl
             end.
Proof.
  intros pace conn_dst conn_src.
  assert (∃ tl,
            Forall past_connecting tl
            ∧ events (main (try_block cfg r sl next_reconnect now))
              = paced pace ++ created (new_stats cfg)
                  ++ EvConnect Dst (resumed_at pace) (dst_sock sl) (id_of (got conn_dst))
                  :: match got conn_dst with
                     | inl _ => tl
                     | inr _ =>
                         EvConnect Src (resumed_at pace + Z.of_N (spent conn_dst))
                                   (src_sock sl) (id_of (got conn_src)) :: tl
                     end) as (tl & Htl & Hblock).
  { subst pace conn_dst conn_src.
    destruct (got (create_connection (dst_reply r) (dst_sock sl))) as [e|dst] eqn:Hdst.
    { rewrite (try_block_dst_fails _ _ _ _ _ _ _ Hdst). cbn [main events].
      exists (delete_stats (new_stats cfg)). split; [|done].
      destruct (new_stats cfg); cbn; each_event. }
    destruct (got (create_connection (src_reply r) (src_sock sl))) as [e|src] eqn:Hsrc.
    { rewrite (try_block_src_fails _ _ _ _ _ _ _ _ Hdst Hsrc). cbn [main events].
      exists (delete_stats (new_stats cfg)). split; [|done].
      destruct (new_stats cfg); cbn; each_event. }
    rewrite (try_block_connected _ _ _ _ _ _ _ _ Hdst Hsrc). cbn [main].
    rewrite events_after.
    set (sl' := Slots _ _). set (start := forward_start r sl next_reconnect now).
    exists ((reset_slots cfg sl').1 ++ add_sockets (new_stats cfg) src dst
              ++ events (forward_both cfg (new_stats cfg) src dst start)).
    split; [|by rewrite <- !app_assoc].
    rewrite !Forall_app. repeat split.
    - unfold reset_slots. destruct (reconnect cfg); cbn; each_event.
    - destruct (new_stats cfg); cbn; each_event.
    - apply forward_both_past_connecting. }
  unfold Route.try_catch.
  destruct (exit (main (try_block cfg r sl next_reconnect now))) as [|[what|what]| |];
    try (by exists tl).
  exists (tl ++ [EvLog (LogError what)]). split.
  - apply Forall_app; split; [done|]. each_event.
  - cbn [main events]. rewrite Hblock.
    destruct (got conn_dst); rewrite <- !app_assoc; cbn; by rewrite <- ?app_assoc.
Qed.

(** How the handler leaves an iteration: as the [try] block left it, or
    returned with the error logged last. *)
Lemma try_catch_exits cfg r sl next_reconnect now :
  let blk := try_block cfg r sl next_reconnect now in
  let it := try_catch cfg r sl next_reconnect now in
  (it = blk ∧ ∀ what, exit (main blk) ≠ Raised (SocketException what))
  ∨ (∃ what, exit (main blk) = Raised (SocketException what)
             ∧ exit (main it) = Returned
             ∧ events (main it) = events (main blk) ++ [EvLog (LogError what)]
             ∧ ends_at (main it) = ends_at (main blk)).
Proof.
  cbn zeta. unfold Route.try_catch.
  destruct (exit (main (try_block cfg r sl next_reconnect now)))
    as [|[what|what]| |] eqn:Hexit; try (by left).
  right. by exists what.
Qed.

(** When the [try] block is left at its end, both directions were served and
    a statistics writer existed: nothing less gets past line 127 and line 131. *)
Lemma try_block_returns cfg r sl next_reconnect now :
  exit (main (try_block cfg r sl next_reconnect now)) = Returned →
  bidir cfg = true ∧ write_stats cfg = true
  ∧ last (events (main (try_block cfg r sl next_reconnect now))) = Some EvStatsDelete.
Proof.
  destruct (got (create_connection (dst_reply r) (dst_sock sl))) as [e|dst] eqn:Hdst.
  { by rewrite (try_block_dst_fails _ _ _ _ _ _ _ Hdst). }
  destruct (got (create_connection (src_reply r) (src_sock sl))) as [e|src] eqn:Hsrc.
  { by rewrite (try_block_src_fails _ _ _ _ _ _ _ _ Hdst Hsrc). }
  rewrite (try_block_connected _ _ _ _ _ _ _ _ Hdst Hsrc). cbn [main].
  rewrite exit_after, events_after. unfold Route.forward_both.
  rewrite exit_after, events_after.
  set (start := forward_start r sl next_reconnect now). rewrite !last_app.
  unfold Route.start_backward, wait_and_deregister, unwind, deregister, new_stats.
  generalize (route dst src cfg "[DST->SRC]" start) as bkw.
  generalize (route src dst cfg "[SRC->DST]" start) as fwd.
  intros [[] fev fend] [[] bev bend];
    destruct (bidir cfg), (write_stats cfg); cbn; done.
Qed.

(** X12.  No [socket::exception] ever leaves [run], whatever the
    connections and the endpoints do and whether or not [cfg.reconnect] is
    set. *)
Theorem no_socket_exception_leaves_run cfg rounds now :
  match exit (thread (run cfg rounds now)) with
  | Raised (SocketException _) => False
  | _ => True
  end.
Proof.
  enough (∀ what, exit (thread (run cfg rounds now)) ≠ Raised (SocketException what))
    as Hnot.
  { destruct (exit (thread (run cfg rounds now))) as [|[what|]| |]; try done.
    by destruct (Hnot what). }
  intros what.
  unfold Route.run. generalize (Slots None None) as sl. generalize now at 1 as next_reconnect.
  revert now.
  induction rounds as [|r rounds IH]; intros now next_reconnect sl; [done|].
  cbn [Route.run_loop].
  set (it := try_catch cfg r sl next_reconnect now).
  assert (∀ w, exit (main it) ≠ Raised (SocketException w)) as Hit.
  { subst it.
    destruct (try_catch_exits cfg r sl next_reconnect now)
      as [[-> Hblk]|(w & _ & Hret & _)]; [done|]. by rewrite Hret. }
  destruct (exit (main it)) eqn:Hexit; cbn [thread]; rewrite ?Hexit; try done;
    try (intros [= ->]; by eapply Hit).
  destruct (reconnect cfg && negb (force_break _)); cbn [thread];
    [rewrite exit_after; apply IH | by rewrite Hexit].
Qed.

(** X13.  With [cfg.reconnect] set, [run] returns only when the flag is set:
    whenever it returns, the flag is set at that moment. *)
Theorem reconnecting_run_returns_only_when_cancelled cfg rounds now :
  reconnect cfg = true →
  exit (thread (run cfg rounds now)) = Returned →
  force_break (ends_at (thread (run cfg rounds now))) = true.
Proof.
  intros Hrec. unfold Route.run.
  generalize (Slots None None) as sl. generalize now at 1 3 as next_reconnect.
  revert now.
  induction rounds as [|r rounds IH]; intros now next_reconnect sl; [done|].
  cbn [Route.run_loop]. rewrite Hrec. cbn [andb].
  set (it := try_catch cfg r sl next_reconnect now).
  destruct (exit (main it)) eqn:Hexit; cbn [thread]; rewrite ?Hexit; try done.
  destruct (force_break (ends_at (main it))) eqn:Hflag; cbn [negb thread].
  - by rewrite Hexit.
  - rewrite exit_after, ends_at_after. apply IH.
Qed.

(** X14.  [run] returns in two ways only: right after its handler has logged
    a [socket::exception], or at the end of a [try] block that served both
    directions with a statistics writer.  An iteration without the backward
    loop or without the writer whose forward loop returns does not lead to a
    return of [run]. *)
Theorem run_returns_after_error_or_full_service cfg rounds now :
  exit (thread (run cfg rounds now)) = Returned →
  (∃ what, last (events (thread (run cfg rounds now))) = Some (EvLog (LogError what)))
  ∨ (bidir cfg = true ∧ write_stats cfg = true
     ∧ last (events (thread (run cfg rounds now))) = Some EvStatsDelete).
Proof.
  unfold Route.run. generalize (Slots None None) as sl. generalize now at 1 3 5 as next_reconnect.
  revert now.
  induction rounds as [|r rounds IH]; intros now next_reconnect sl; [done|].
  cbn [Route.run_loop].
  set (it := try_catch cfg r sl next_reconnect now).
  assert (exit (main it) = Returned →
          (∃ what, last (events (main it)) = Some (EvLog (LogError what)))
          ∨ (bidir cfg = true ∧ write_stats cfg = true
             ∧ last (events (main it)) = Some EvStatsDelete)) as Hit.
  { subst it.
    destruct (try_catch_exits cfg r sl next_reconnect now)
      as [[-> _]|(w & _ & _ & -> & _)].
    - intros Hret. right. by apply try_block_returns.
    - intros _. left. exists w. apply last_snoc. }
  destruct (exit (main it)) eqn:Hexit; cbn [thread]; rewrite ?Hexit; try done.
  destruct (reconnect cfg && negb (force_break _)); cbn [thread];
    [|rewrite Hexit; intros _; by apply Hit].
  rewrite exit_after, events_after. intros Hret.
  destruct (IH _ _ _ Hret) as [[w Hlast]|(? & ? & Hlast)]; [left; exists w|right];
    rewrite last_app, Hlast; done.
Qed.

(** X7.  The handler of [run] is for [socket::exception] only.  An exception
    of another class thrown on the thread of [run], by a connection or by the
    forward loop, is not caught: [run] logs no error and enters no further
    iteration, not even with [cfg.reconnect] set.  The exception leaves [run]
    once the backward loop, if the iteration started one, has ended, since
    the destructor of [route_bkwd] joins that thread on the way out; if the
    backward loop never ends, [run] hangs in that destructor. *)
Theorem other_exception_leaves_run cfg r rounds sl next_reconnect now what :
  ThrownOnRunThread force_break cfg r sl next_reconnect now (OtherException what) →
  let it := try_block cfg r sl next_reconnect now in
  let res := run_loop cfg (r :: rounds) sl next_reconnect now in
  events (thread res) = events (main it)
  ∧ Forall (λ ev, ¬ is_error_log ev) (events (thread res))
  ∧ starts (events (thread res)) = [now]
  ∧ match backward it with
    | Some b =>
        match exit b with
        | Blocked => exit (thread res) = Blocked ∧ last (events (thread res)) = Some EvJoin
        | _ => exit (thread res) = Raised (OtherException what)
        end
    | None => exit (thread res) = Raised (OtherException what)
    end.
Proof.
  intros Hthrown it res.
  assert (match backward it with
          | Some b =>
              match exit b with
              | Blocked => exit (main it) = Blocked ∧ last (events (main it)) = Some EvJoin
              | _ => exit (main it) = Raised (OtherException what)
              end
          | None => exit (main it) = Raised (OtherException what)
          end) as Hmain.
  { subst it. destruct Hthrown as [Hdst|dst Hdst Hsrc|dst src Hdst Hsrc Hfwd].
    - by rewrite (try_block_dst_fails _ _ _ _ _ _ _ Hdst).
    - by rewrite (try_block_src_fails _ _ _ _ _ _ _ _ Hdst Hsrc).
    - rewrite (try_block_connected _ _ _ _ _ _ _ _ Hdst Hsrc).
      cbn [main backward]. rewrite exit_after, events_after.
      unfold Route.forward_both. rewrite exit_after, events_after.
      rewrite (route_raises _ _ _ _ _ _ _ Hfwd). unfold unwind.
      destruct (start_backward cfg src dst _) as [b|]; [|done].
      destruct (exit b); try done.
      split; [done|]. by rewrite !last_app. }
  assert (thread res = main it) as ->.
  { subst res. cbn [Route.run_loop]. unfold Route.try_catch. fold it.
    destruct (backward it) as [b|]; [destruct (exit b)|];
      repeat match goal with
             | H : _ ∧ _ |- _ => destruct H as [H _]
             | H : exit (main it) = _ |- _ => rewrite !H
             end; done. }
  split; [done|]. split; [apply try_block_logs_no_error|].
  split; [apply try_block_paced|done].
Qed.

(** X6.  Without [cfg.reconnect], [run] makes one iteration and no more: it
    samples the clock once, calls the Connection Factory at once, without a
    sleep, and whatever that iteration ends in, the environment is not asked
    for a further connection. *)
Theorem single_iteration_without_reconnect cfg r rounds now :
  reconnect cfg = false →
  let res := run cfg (r :: rounds) now in
  res = run cfg [r] now
  ∧ starts (events (thread res)) = [now]
  ∧ attempts (events (thread res)) = [now]
  ∧ Forall (λ ev, ∀ d w, ev ≠ EvSleepUntil d w) (events (thread res)).
Proof.
  intros Hrec res.
  set (it := try_catch cfg r (Slots None None) now now).
  assert (∀ rounds', run cfg (r :: rounds') now
                     = RunResult (main it) (option_list (backward it)) (slots_after it))
    as Hone.
  { intros rounds'. unfold Route.run. cbn [Route.run_loop]. fold it. rewrite Hrec.
    by destruct (exit (main it)). }
  subst res. rewrite !Hone. cbn [thread]. split; [done|].
  destruct (try_catch_paced force_break cfg r (Slots None None) now now) as (Hs & Ha & _).
  destruct (try_catch_events cfg r (Slots None None) now now) as (tl & Htl & Hevs).
  fold it in Hs, Ha, Hevs.
  assert (backoff (lag r) now now = Pacing [EvNow now] now (now + seconds 1)) as Hpace.
  { unfold backoff. by rewrite Z.ltb_irrefl. }
  rewrite Hpace in *. split; [done|]. split; [done|].
  rewrite Hevs. destruct (past_connecting_quiet tl Htl) as (_ & _ & _ & _ & _ & Hquiet).
  cbn [paced]. apply Forall_app; split; [each_event_ne|].
  apply Forall_app; split; [destruct (new_stats cfg); cbn; each_event_ne|].
  case_match; each_event_ne; done.
Qed.

Lemma try_catch_slots cfg r sl next_reconnect now :
  slots_after (try_catch cfg r sl next_reconnect now)
  = slots_after (try_block cfg r sl next_reconnect now).
Proof.
  unfold Route.try_catch.
  by destruct (exit (main (try_block cfg r sl next_reconnect now))) as [|[]| |].
Qed.

(** X5.  In every iteration the destination is connected first, and the
    source only if the destination's connection succeeded.  If either
    connection fails, the iteration starts no forwarding loop, registers no
    endpoint and resets no slot. *)
Theorem destination_connected_before_source cfg r sl next_reconnect now :
  let conn_dst := create_connection (dst_reply r) (dst_sock sl) in
  let conn_src := create_connection (src_reply r) (src_sock sl) in
  let evs := events (main (try_catch cfg r sl next_reconnect now)) in
  connects evs
  = match got conn_dst with
    | inl e => [(Dst, inl e)]
    | inr dst => [(Dst, inr (id dst)); (Src, id_of (got conn_src))]
    end
  ∧ ((∃ e, got conn_dst = inl e) ∨ (∃ e, got conn_src = inl e) →
     Forall (λ ev, ¬ forwarding ev ∧ ¬ is_add_socket ev ∧ ∀ sd, ev ≠ EvSlotReset sd) evs).
Proof.
  intros conn_dst conn_src evs. split.
  - subst evs.
    destruct (try_catch_events cfg r sl next_reconnect now) as (tl & Htl & ->).
    destruct (past_connecting_quiet tl Htl) as (Hnone & _).
    fold conn_dst conn_src. unfold connects in *. rewrite !omap_app.
    assert (omap (λ ev, match ev with
                        | EvConnect sd _ _ got => Some (sd, got) | _ => None end)
                 (paced (backoff (lag r) next_reconnect now)) = []) as ->.
    { unfold backoff. by destruct (now <? next_reconnect). }
    assert (omap (λ ev, match ev with
                        | EvConnect sd _ _ got => Some (sd, got) | _ => None end)
                 (created (new_stats cfg)) = []) as ->.
    { by destruct (new_stats cfg). }
    destruct (got conn_dst); cbn; by rewrite Hnone.
  - intros Hfails.
    assert (Forall (λ ev, ¬ forwarding ev ∧ ¬ is_add_socket ev ∧ ∀ sd, ev ≠ EvSlotReset sd)
                   (events (main (try_block cfg r sl next_reconnect now)))) as Hblk.
    { assert (∀ t1 slot1 res1 t2 slot2 res2,
                Forall (λ ev, ¬ forwarding ev ∧ ¬ is_add_socket ev
                              ∧ ∀ sd, ev ≠ EvSlotReset sd)
                       (paced (backoff (lag r) next_reconnect now)
                          ++ created (new_stats cfg)
                          ++ [EvConnect Dst t1 slot1 res1]
                          ++ delete_stats (new_stats cfg))
                ∧ Forall (λ ev, ¬ forwarding ev ∧ ¬ is_add_socket ev
                                ∧ ∀ sd, ev ≠ EvSlotReset sd)
                         (paced (backoff (lag r) next_reconnect now)
                            ++ created (new_stats cfg)
                            ++ [EvConnect Dst t1 slot1 res1; EvConnect Src t2 slot2 res2]
                            ++ delete_stats (new_stats cfg))) as Hpieces.
      { intros t1 slot1 res1 t2 slot2 res2. unfold backoff.
        destruct (now <? next_reconnect), (new_stats cfg); cbn;
          split; repeat (apply Forall_cons; split; [cbn; by intuition|]);
          apply Forall_nil_2. }
      subst conn_dst conn_src.
      destruct (got (create_connection (dst_reply r) (dst_sock sl))) as [e|dst] eqn:Hdst.
      { rewrite (try_block_dst_fails _ _ _ _ _ _ _ Hdst). cbn [main events].
        apply (Hpieces _ _ _ 0 None (inl e)). }
      destruct (got (create_connection (src_reply r) (src_sock sl))) as [e|src] eqn:Hsrc.
      { rewrite (try_block_src_fails _ _ _ _ _ _ _ _ Hdst Hsrc). cbn [main events].
        apply Hpieces. }
      destruct Hfails as [[e [=]]|[e [=]]]. }
    subst evs.
    destruct (try_catch_exits cfg r sl next_reconnect now)
      as [[-> _]|(w & _ & _ & -> & _)]; [done|].
    apply Forall_app; split; [done|].
    apply Forall_cons; split; [cbn; by intuition|apply Forall_nil_2].
Qed.

Lemma create_connection_keeps reply l :
  slot_after (create_connection reply (Some l)) = Some l.
Proof. by destruct reply. Qed.

(** X10.  With [cfg.reconnect] set, a listener in the source's slot stays
    there: from an iteration that begins with the listener in [src_sock] on,
    every call of the Connection Factory for the source finds that listener,
    and it is still there when [run] is left. *)
Theorem source_listener_kept_while_reconnecting cfg rounds sl next_reconnect now l :
  reconnect cfg = true →
  src_sock sl = Some l →
  let res := run_loop cfg rounds sl next_reconnect now in
  Forall (λ found, found = Some l) (src_slots_found (events (thread res)))
  ∧ src_sock (slots_left res) = Some l.
Proof.
  intros Hrec. revert sl next_reconnect now.
  induction rounds as [|r rounds IH]; intros sl next_reconnect now Hsl;
    [by split; [constructor|]|].
  cbn zeta. cbn [Route.run_loop].
  set (it := try_catch cfg r sl next_reconnect now).
  assert (Forall (λ found, found = Some l) (src_slots_found (events (main it)))
          ∧ src_sock (slots_after it) = Some l) as [Hfound Hkept].
  { subst it. split.
    - destruct (try_catch_events cfg r sl next_reconnect now) as (tl & Htl & ->).
      destruct (past_connecting_quiet tl Htl) as (_ & Hnone & _).
      unfold src_slots_found in *. rewrite !omap_app.
      assert (omap (λ ev, match ev with
                          | EvConnect Src _ slot _ => Some slot | _ => None end)
                   (paced (backoff (lag r) next_reconnect now)) = []) as ->.
      { unfold backoff. by destruct (now <? next_reconnect). }
      assert (omap (λ ev, match ev with
                          | EvConnect Src _ slot _ => Some slot | _ => None end)
                   (created (new_stats cfg)) = []) as ->.
      { by destruct (new_stats cfg). }
      destruct (got (create_connection (dst_reply r) (dst_sock sl))); cbn;
        rewrite Hnone; by repeat constructor.
    - rewrite try_catch_slots.
      destruct (got (create_connection (dst_reply r) (dst_sock sl))) as [e|dst] eqn:Hdst.
      { by rewrite (try_block_dst_fails _ _ _ _ _ _ _ Hdst). }
      destruct (got (create_connection (src_reply r) (src_sock sl))) as [e|src] eqn:Hsrc.
      { rewrite (try_block_src_fails _ _ _ _ _ _ _ _ Hdst Hsrc). cbn.
        rewrite Hsl. apply create_connection_keeps. }
      rewrite (connected_iteration_slots _ _ _ _ _ _ _ _ Hdst Hsrc), Hrec. cbn.
      rewrite Hsl. apply create_connection_keeps. }
  destruct (exit (main it)); cbn [thread slots_left]; try done.
  rewrite Hrec. cbn [andb].
  destruct (negb (force_break (ends_at (main it)))); cbn [thread slots_left]; [|done].
  destruct (IH (slots_after it) (next_reconnect_after it) (ends_at (main it)) Hkept)
    as [IHfound IHkept].
  split; [|done]. rewrite events_after. unfold src_slots_found in *.
  rewrite omap_app. by apply Forall_app.
Qed.

(** *** The statistics writer from iteration to iteration *)

Lemma lifetimes_app alive alive' evs1 evs2 :
  stats_lifetimes alive evs1 = Some alive' →
  stats_lifetimes alive (evs1 ++ evs2) = stats_lifetimes alive' evs2.
Proof.
  revert alive. induction evs1 as [|ev evs1 IH]; intros alive; cbn; [by intros [= ->]|].
  destruct ev as [| | | | | | |[]| | | | | |]; try apply IH; destruct alive; try done; apply IH.
Qed.

Lemma lifetimes_forwarding alive evs :
  Forall forwarding evs → stats_lifetimes alive evs = Some alive.
Proof.
  induction 1 as [|ev evs Hev _ IH]; [done|].
  by destruct ev as [| | | | | | |[]| | | | | |].
Qed.

Lemma in_order_app o alive alive' evs1 evs2 :
  stats_lifetimes alive evs1 = Some alive' →
  stats_in_order o alive' evs2 →
  stats_in_order o alive (evs1 ++ evs2).
Proof.
  intros Hscan. unfold stats_in_order.
  destruct o as [| | |[]]; rewrite ?(lifetimes_app _ _ _ _ Hscan); try done.
  intros (before & sock & -> & Hbefore). exists (evs1 ++ before), sock.
  split; [by rewrite app_assoc|]. by rewrite (lifetimes_app _ _ _ _ Hscan).
Qed.

(** Lines 116 to 131 with respect to the writer: the sockets are added and
    removed while it exists, and where the block is left, by its end or by an
    exception, the writer is gone; but without a writer, line 131 calls
    [remove_socket] all the same. *)
Lemma forward_both_lifetimes cfg stats src dst now :
  let x := forward_both cfg stats src dst now in
  stats_in_order (exit x) (bool_decide (is_Some stats))
                 (add_sockets stats src dst ++ events x).
Proof.
  cbn zeta. unfold Route.forward_both. rewrite exit_after, events_after.
  pose proof (route_forwarding force_break src dst cfg "[SRC->DST]" now) as Hfwd.
  pose proof (route_defined force_break src dst cfg "[SRC->DST]" now) as Hdef.
  revert Hfwd Hdef.
  unfold Route.start_backward, wait_and_deregister, unwind, deregister.
  generalize (route dst src cfg "[DST->SRC]" now) as bkw.
  generalize (route src dst cfg "[SRC->DST]" now) as fwd.
  intros [fexit fev fend] [bexit bev bend] Hfwd Hdef. cbn [exit events ends_at] in *.
  assert (∀ tail a, stats_lifetimes a (fev ++ tail) = stats_lifetimes a tail) as Hskip.
  { intros tail a. by apply lifetimes_app, lifetimes_forwarding. }
  destruct fexit as [| | |u]; [| | |by destruct (Hdef u)];
    destruct stats as [sw|], (bidir cfg); cbn [add_sockets app started bool_decide];
    rewrite ?(bool_decide_eq_true_2 (is_Some (Some sw))) by eauto;
    rewrite ?(bool_decide_eq_false_2 (is_Some (@None stats_writer)))
      by (by intros [? ?]);
    destruct bexit as [| | |[]];
    cbn [exit events after delete_stats app stats_in_order stats_lifetimes];
    rewrite ?Hskip; cbn [stats_lifetimes]; eauto;
    (exists (EvAsync "[DST->SRC]" :: fev ++ [EvWait true]), (id dst);
     split; [cbn [app]; by rewrite <- app_assoc|];
     cbn [stats_lifetimes]; by rewrite Hskip).
Qed.

Lemma try_catch_lifetimes cfg r sl next_reconnect now :
  let it := try_catch cfg r sl next_reconnect now in
  stats_in_order (exit (main it)) false (events (main it)).
Proof.
  cbn zeta.
  assert (stats_in_order (exit (main (try_block cfg r sl next_reconnect now))) false
            (events (main (try_block cfg r sl next_reconnect now)))) as Hblock.
  { assert (stats_lifetimes false
              (paced (backoff (lag r) next_reconnect now) ++ created (new_stats cfg))
            = Some (bool_decide (is_Some (new_stats cfg)))) as Hpre.
    { unfold backoff. by destruct (now <? next_reconnect), (new_stats cfg). }
    destruct (got (create_connection (dst_reply r) (dst_sock sl))) as [e|dst] eqn:Hdst.
    { rewrite (try_block_dst_fails _ _ _ _ _ _ _ Hdst). cbn [main events exit].
      rewrite app_assoc. apply (in_order_app _ _ _ _ _ Hpre).
      by destruct (new_stats cfg). }
    destruct (got (create_connection (src_reply r) (src_sock sl))) as [e|src] eqn:Hsrc.
    { rewrite (try_block_src_fails _ _ _ _ _ _ _ _ Hdst Hsrc). cbn [main events exit].
      rewrite app_assoc. apply (in_order_app _ _ _ _ _ Hpre).
      by destruct (new_stats cfg). }
    rewrite (try_block_connected _ _ _ _ _ _ _ _ Hdst Hsrc). cbn [main].
    rewrite events_after, exit_after.
    set (start := forward_start r sl next_reconnect now).
    pose proof (forward_both_lifetimes cfg (new_stats cfg) src dst start) as Hboth.
    cbn zeta in Hboth.
    rewrite <- !app_assoc, app_assoc. apply (in_order_app _ _ _ _ _ Hpre).
    assert (stats_lifetimes (bool_decide (is_Some (new_stats cfg)))
              [EvConnect Dst (resumed_at (backoff (lag r) next_reconnect now))
                 (dst_sock sl) (inr (id dst));
               EvConnect Src
                 (resumed_at (backoff (lag r) next_reconnect now)
                  + Z.of_N (spent (create_connection (dst_reply r) (dst_sock sl))))
                 (src_sock sl) (inr (id src))]
            = Some (bool_decide (is_Some (new_stats cfg)))) as Hconn by done.
    apply (in_order_app _ _ _ _ _ Hconn).
    assert (∀ sl', stats_lifetimes (bool_decide (is_Some (new_stats cfg)))
                     (reset_slots cfg sl').1
                   = Some (bool_decide (is_Some (new_stats cfg)))) as Hreset.
    { intros sl'. unfold reset_slots. by destruct (reconnect cfg). }
    by apply (in_order_app _ _ _ _ _ (Hreset _)). }
  destruct (try_catch_exits cfg r sl next_reconnect now)
    as [[-> _]|(w & Hraised & -> & -> & _)]; [done|].
  rewrite Hraised in Hblock. cbn [stats_in_order] in *.
  by rewrite (lifetimes_app _ _ _ _ Hblock).
Qed.

(** X8.  A statistics writer does not outlive its iteration, and is not
    shared between iterations: along the thread of [run] a writer is only
    constructed while none exists and deleted while one exists, and
    [add_socket] and [remove_socket] are only called while it exists, with
    one exception: where [run] goes wrong in the [remove_socket] of line 131
    through the null handle, that call, made while no writer exists, is the
    last event, and the trace before it is in order.  When [run] is left,
    returning or by an exception, no writer exists; and with statistics
    enabled one writer is constructed in every iteration that begins, from
    the same file name and interval. *)
Theorem stats_writer_per_iteration cfg rounds now :
  let res := run cfg rounds now in
  match exit (thread res) with
  | Undefined NullStatsDereference =>
      ∃ before sock,
        events (thread res) = before ++ [EvRemoveSocket None sock]
        ∧ stats_lifetimes false before = Some false
  | Returned | Raised _ => stats_lifetimes false (events (thread res)) = Some false
  | _ => ∃ still, stats_lifetimes false (events (thread res)) = Some still
  end
  ∧ writers_created (events (thread res))
    = match new_stats cfg with
      | Some sw => replicate (length (starts (events (thread res)))) sw
      | None => []
      end.
Proof.
  cbn zeta. unfold Route.run.
  enough (∀ now next_reconnect sl,
            stats_in_order (exit (thread (run_loop cfg rounds sl next_reconnect now)))
              false (events (thread (run_loop cfg rounds sl next_reconnect now)))
            ∧ writers_created (events (thread (run_loop cfg rounds sl next_reconnect now)))
              = match new_stats cfg with
                | Some sw =>
                    replicate
                      (length (starts
                         (events (thread (run_loop cfg rounds sl next_reconnect now)))))
                      sw
                | None => []
                end) as Hall by apply Hall.
  clear now. induction rounds as [|r rounds IH]; intros now next_reconnect sl.
  { split; [by exists false|]. by destruct (new_stats cfg). }
  cbn [Route.run_loop].
  set (it := try_catch cfg r sl next_reconnect now).
  pose proof (try_catch_lifetimes cfg r sl next_reconnect now) as Hscan.
  destruct (try_catch_paced force_break cfg r sl next_reconnect now) as (Hs & _).
  assert (writers_created (events (main it)) = option_list (new_stats cfg)) as Hnew.
  { subst it.
    destruct (try_catch_events cfg r sl next_reconnect now) as (tl & Htl & ->).
    destruct (past_connecting_quiet tl Htl) as (_ & _ & Hnone & _).
    unfold writers_created in *. rewrite !omap_app.
    assert (omap (λ ev, match ev with EvStatsNew sw => Some sw | _ => None end)
                 (paced (backoff (lag r) next_reconnect now)) = []) as ->.
    { unfold backoff. by destruct (now <? next_reconnect). }
    destruct (got (create_connection (dst_reply r) (dst_sock sl))); cbn;
      rewrite Hnone; destruct (new_stats cfg); done. }
  cbn zeta in Hscan. fold it in Hscan, Hs.
  assert (∀ x, x = main it →
            stats_in_order (exit x) false (events x)
            ∧ writers_created (events x)
              = match new_stats cfg with
                | Some sw => replicate (length (starts (events x))) sw
                | None => []
                end) as Hstop.
  { intros x ->. split; [done|]. rewrite Hnew, Hs.
    by destruct (new_stats cfg). }
  destruct (exit (main it)) eqn:Hexit; cbn [thread]; try (apply Hstop; done).
  destruct (reconnect cfg && negb (force_break _)); cbn [thread];
    [|apply Hstop; done].
  destruct (IH (ends_at (main it)) (next_reconnect_after it) (slots_after it))
    as [Hrest Hcount].
  rewrite exit_after, events_after. split.
  - by apply (in_order_app _ _ _ _ _ Hscan).
  - unfold writers_created in *. rewrite omap_app, Hnew, Hcount, starts_app, Hs.
    by destruct (new_stats cfg).
Qed.

(** *** The clock *)

Lemma forward_both_ends_later cfg stats src dst now :
  now ≤ ends_at (forward_both cfg stats src dst now).
Proof.
  unfold Route.forward_both. rewrite ends_at_after.
  pose proof (route_ends_later force_break src dst cfg "[SRC->DST]" now) as Hfwd.
  revert Hfwd. unfold Route.start_backward, wait_and_deregister, unwind, deregister.
  generalize (route dst src cfg "[DST->SRC]" now) as bkw.
  generalize (route src dst cfg "[SRC->DST]" now) as fwd.
  intros [fexit fev fend] [bexit bev bend]. cbn [exit events ends_at].
  destruct (bidir cfg), stats, fexit, bexit; cbn; lia.
Qed.

Lemma try_catch_ends_later cfg r sl next_reconnect now :
  now ≤ ends_at (main (try_catch cfg r sl next_reconnect now)).
Proof.
  destruct (backoff_paced (lag r) next_reconnect now) as (_ & _ & Hnow & _).
  assert (now ≤ ends_at (main (try_block cfg r sl next_reconnect now))) as Hblk.
  { destruct (got (create_connection (dst_reply r) (dst_sock sl))) as [e|dst] eqn:Hdst.
    { rewrite (try_block_dst_fails _ _ _ _ _ _ _ Hdst). cbn. lia. }
    destruct (got (create_connection (src_reply r) (src_sock sl))) as [e|src] eqn:Hsrc.
    { rewrite (try_block_src_fails _ _ _ _ _ _ _ _ Hdst Hsrc). cbn.
      unfold forward_start. lia. }
    rewrite (try_block_connected _ _ _ _ _ _ _ _ Hdst Hsrc). cbn [main].
    rewrite ends_at_after. etrans; [|apply forward_both_ends_later].
    unfold forward_start. lia. }
  destruct (try_catch_exits cfg r sl next_reconnect now)
    as [[-> _]|(w & _ & _ & _ & ->)]; done.
Qed.

(** The sleeps of one iteration: one, if [next_reconnect] lies ahead. *)
Lemma try_catch_naps cfg r sl next_reconnect now :
  let evs := events (main (try_catch cfg r sl next_reconnect now)) in
  naps evs
  = (if now <? next_reconnect
     then [(now, next_reconnect, next_reconnect + Z.of_N (lag r))] else [])
  ∧ ∀ tnow, last evs ≠ Some (EvNow tnow).
Proof.
  cbn zeta.
  destruct (try_catch_events cfg r sl next_reconnect now) as (tl & Htl & ->).
  destruct (past_connecting_quiet tl Htl) as (_ & _ & _ & Hstarts & _).
  set (rest := created (new_stats cfg) ++ _).
  assert (starts rest = [] ∧ rest ≠ []
          ∧ ∀ d w rest', rest ≠ EvSleepUntil d w :: rest') as (Hrest & Hne & Hhead).
  { subst rest. unfold starts in *.
    destruct (new_stats cfg), (got (create_connection (dst_reply r) (dst_sock sl)));
      cbn; rewrite Hstarts; done. }
  clearbody rest. split.
  - unfold backoff. destruct (now <? next_reconnect); cbn [paced app naps].
    + by rewrite (naps_quiet rest Hrest).
    + rewrite (naps_quiet rest Hrest). destruct rest as [|[| d w | | | | | | | | | | | |] rest'];
        try done.
      by destruct (Hhead d w rest').
  - intros tnow. rewrite last_app.
    destruct (last rest) as [ev|] eqn:Hlast; [|by apply last_None in Hlast].
    intros [= ->]. apply last_Some in Hlast as [rest' ->].
    unfold starts in Hrest. rewrite omap_app in Hrest.
    by apply app_eq_nil in Hrest as [_ ?].
Qed.

(** X11.  The sleep before a reconnection is never longer than one second
    up to its deadline: whenever [run] sleeps, the deadline lies after the
    clock sample just taken and at most one second after it, and the sleep
    is not over before the deadline. *)
Theorem backoff_sleep_at_most_a_second cfg rounds now :
  Forall (λ nap, nap.1.1 < nap.1.2 ≤ nap.1.1 + seconds 1 ∧ nap.1.2 ≤ nap.2)
         (naps (events (thread (run cfg rounds now)))).
Proof.
  unfold Route.run.
  enough (∀ sl next_reconnect now,
            next_reconnect ≤ now + seconds 1 →
            Forall (λ nap, nap.1.1 < nap.1.2 ≤ nap.1.1 + seconds 1 ∧ nap.1.2 ≤ nap.2)
                   (naps (events (thread (run_loop cfg rounds sl next_reconnect now)))))
    as Hloop.
  { apply Hloop. unfold seconds. lia. }
  clear now.
  induction rounds as [|r rounds IH]; intros sl next_reconnect now Hnear; [constructor|].
  cbn [Route.run_loop].
  destruct (try_catch_naps cfg r sl next_reconnect now) as [Hnaps Hlast].
  destruct (try_catch_paced force_break cfg r sl next_reconnect now) as (_ & _ & Hd).
  pose proof (try_catch_ends_later cfg r sl next_reconnect now) as Hlater.
  set (it := try_catch cfg r sl next_reconnect now) in *.
  assert (Forall (λ nap, nap.1.1 < nap.1.2 ≤ nap.1.1 + seconds 1 ∧ nap.1.2 ≤ nap.2)
                 (naps (events (main it)))) as Hit.
  { rewrite Hnaps. destruct (Z.ltb_spec now next_reconnect); constructor; [|constructor].
    cbn. lia. }
  destruct (exit (main it)); cbn [thread]; try done.
  destruct (reconnect cfg && negb (force_break _)); cbn [thread]; [|done].
  rewrite events_after, naps_app by done.
  apply Forall_app; split; [done|]. apply IH. lia.
Qed.

(** *** Cancelled from the outset *)

Lemma route_cancelled src dst cfg desc now :
  force_break now = true →
  route src dst cfg desc now = Exec Returned [EvLog (LogStarted desc)] now.
Proof.
  intros Hflag. unfold Route.route. destruct (reads src); cbn; by rewrite Hflag.
Qed.

(** X9.  The flag is not looked at before the first iteration.  If it is
    set from the outset, [run] still makes one iteration, which calls the
    Connection Factory at once; but no forwarding loop, on either thread,
    reads or writes anything, and no second iteration follows. *)
Theorem cancelled_run_connects_once_forwards_nothing cfg r rounds now :
  (∀ t, force_break t = true) →
  let res := run cfg (r :: rounds) now in
  res = run cfg [r] now
  ∧ attempts (events (thread res)) = [now]
  ∧ Forall (λ ev, ¬ is_io ev) (events (thread res))
  ∧ Forall (λ b, Forall (λ ev, ¬ is_io ev) (events b)) (backward_threads res).
Proof.
  intros Hflag res.
  set (it := try_catch cfg r (Slots None None) now now).
  assert (∀ rounds', run cfg (r :: rounds') now
                     = RunResult (main it) (option_list (backward it)) (slots_after it))
    as Hone.
  { intros rounds'. unfold Route.run. cbn [Route.run_loop]. fold it.
    rewrite Hflag, andb_false_r. by destruct (exit (main it)). }
  subst res. rewrite !Hone. cbn [thread backward_threads]. split; [done|].
  destruct (try_catch_paced force_break cfg r (Slots None None) now now) as (_ & Ha & _).
  fold it in Ha. split.
  { rewrite Ha. unfold backoff. by rewrite Z.ltb_irrefl. }
  assert (Forall (λ ev, ¬ is_io ev)
                 (events (main (try_block cfg r (Slots None None) now now)))
          ∧ Forall (λ b, Forall (λ ev, ¬ is_io ev) (events b))
                   (option_list (backward (try_block cfg r (Slots None None) now now))))
    as [Hmain Hbkwd].
  { assert (Forall (λ ev, ¬ is_io ev) (paced (backoff (lag r) now now))) as Hpaced.
    { unfold backoff. destruct (now <? now); each_event. }
    assert (Forall (λ ev, ¬ is_io ev) (created (new_stats cfg))
            ∧ Forall (λ ev, ¬ is_io ev) (delete_stats (new_stats cfg))) as [Hnew Hdel].
    { destruct (new_stats cfg); split; each_event. }
    destruct (got (create_connection (dst_reply r) (dst_sock (Slots None None))))
      as [e|dst] eqn:Hdst.
    { rewrite (try_block_dst_fails _ _ _ _ _ _ _ Hdst). cbn [main events backward].
      split; [|constructor]. rewrite !Forall_app. repeat split; try done. each_event. }
    destruct (got (create_connection (src_reply r) (src_sock (Slots None None))))
      as [e|src] eqn:Hsrc.
    { rewrite (try_block_src_fails _ _ _ _ _ _ _ _ Hdst Hsrc). cbn [main events backward].
      split; [|constructor]. rewrite !Forall_app. repeat split; try done. each_event. }
    rewrite (try_block_connected _ _ _ _ _ _ _ _ Hdst Hsrc). cbn [main backward].
    rewrite events_after. unfold Route.forward_both, Route.start_backward.
    rewrite events_after, !route_cancelled by apply Hflag.
    cbn [exit events ends_at]. unfold wait_and_deregister, deregister, reset_slots.
    split.
    - rewrite !Forall_app. repeat split; try done; try each_event.
      + destruct (reconnect cfg); cbn; each_event.
      + destruct (new_stats cfg); cbn; each_event.
      + destruct (bidir cfg); cbn; each_event.
      + destruct (bidir cfg), (new_stats cfg); cbn; each_event.
    - destruct (bidir cfg); cbn; [|apply Forall_nil_2].
      apply Forall_cons; split; [cbn; each_event|apply Forall_nil_2]. }
  subst it.
  destruct (try_catch_exits cfg r (Slots None None) now now)
    as [[-> _]|(w & _ & _ & Hev & _)]; [done|].
  split.
  - rewrite Hev. apply Forall_app; split; [done|each_event].
  - unfold Route.try_catch.
    by destruct (exit (main (try_block cfg r (Slots None None) now now))) as [|[]| |].
Qed.

End RunMore.

(** ** Further concrete runs *)

(** A loop cancelled at tick 5 while it waits in a read that returns at
    tick 10. *)
Lemma route_returns_only_when_cancelled_witness :
  let src := Endpoint 1 [ReadOk [] 10] [] in
  let dst := Endpoint 2 [] [] in
  let cfg := Config 1316 false false EmptyString 0 in
  let x := Route.route (set_at 5) src dst cfg "[SRC->DST]" 0 in
  exit x = Returned ∧ set_at 5 (ends_at x) = true.
Proof.
  intros src dst cfg x.
  assert (exit x = Returned) as Hret by reflexivity.
  split; [exact Hret|].
  exact (route_returns_only_when_cancelled (set_at 5) src dst cfg "[SRC->DST]" 0 Hret).
Defined.

(** The flag is set at tick 5, between the read that returns at tick 10 and
    its write: the byte read is written all the same. *)
Lemma route_hands_on_all_it_read_witness :
  let src := Endpoint 1 [ReadOk [x01] 10] [] in
  let dst := Endpoint 2 [] [WriteOk 1 1] in
  let cfg := Config 1316 false false EmptyString 0 in
  let x := Route.route (set_at 5) src dst cfg "[SRC->DST]" 0 in
  exit x = Returned
  ∧ received (events x) = [[x01]]
  ∧ written (events x)
    = filter (λ bytes, length bytes ≠ 0%nat) (received (events x)).
Proof.
  intros src dst cfg x.
  split; [reflexivity|]. split; [reflexivity|].
  apply (route_hands_on_all_it_read (set_at 5) src dst cfg "[SRC->DST]" 0).
  discriminate.
Defined.

Lemma route_mismatches_are_real_witness :
  let payload := replicate 500 x2a in
  let src := Endpoint 1 [ReadOk payload 3; ReadOk payload 3] [] in
  let dst := Endpoint 2 [] [WriteOk 300 1; WriteOk 500 1] in
  let cfg := Config 1316 false false EmptyString 0 in
  Z.of_nat (message_size cfg) < 2 ^ 64
  ∧ Forall (λ ev, ∀ d bytes_sent bytes_read,
              ev = EvLog (LogWriteMismatch d bytes_sent bytes_read) →
              d = "[SRC->DST]"%string ∧ bytes_sent ≠ bytes_read
              ∧ 0 < bytes_read ≤ Z.of_nat (message_size cfg))
           (events (Route.route never_set src dst cfg "[SRC->DST]" 0)).
Proof.
  intros payload src dst cfg.
  assert (Z.of_nat (message_size cfg) < 2 ^ 64) as Hcap by (vm_compute; reflexivity).
  split; [exact Hcap|].
  exact (route_mismatches_are_real never_set src dst cfg "[SRC->DST]" 0 Hcap).
Defined.

Lemma single_iteration_without_reconnect_witness :
  let cfg := Config 1316 false false EmptyString 0 in
  let refused := Round 0 (Fails (SocketException "refused") 5)
                         (Fails (SocketException "refused") 5) in
  reconnect cfg = false
  ∧ starts (events (thread (Route.run never_set cfg [refused; refused] 0))) = [0].
Proof.
  intros cfg refused. split; [reflexivity|].
  exact (proj1 (proj2 (single_iteration_without_reconnect never_set cfg refused
                         [refused] 0 eq_refl))).
Defined.

(** With [cfg.reconnect] and [cfg.bidir] set, the source's first read on the
    thread of [run] raises something that is no [socket::exception]; the
    backward loop ends with the [socket::exception] of its own first read. *)
Lemma other_exception_leaves_run_witness :
  let src := Endpoint 1 [ReadThrows (OtherException "bad_alloc") 10] [] in
  let dst := Endpoint 2 [ReadThrows (SocketException "closed") 20] [] in
  let cfg := Config 1316 true true EmptyString 0 in
  let r := Round 0 (Connects dst 0) (Connects src 0) in
  let res := Route.run_loop never_set cfg [r; r] (Slots None None) 0 0 in
  ThrownOnRunThread never_set cfg r (Slots None None) 0 0 (OtherException "bad_alloc")
  ∧ exit (thread res) = Raised (OtherException "bad_alloc")
  ∧ starts (events (thread res)) = [0].
Proof.
  intros src dst cfg r res.
  assert (ThrownOnRunThread never_set cfg r (Slots None None) 0 0
            (OtherException "bad_alloc")) as Hthrown.
  { apply (thrown_forwarding _ _ _ _ _ _ _ dst src); [reflexivity|reflexivity|].
    left. apply list_elem_of_further, list_elem_of_here. }
  split; [exact Hthrown|].
  pose proof (other_exception_leaves_run never_set cfg r [r] (Slots None None) 0 0
                "bad_alloc" Hthrown) as (_ & _ & Hstarts & Hexit).
  split; [exact Hexit|exact Hstarts].
Defined.

Lemma cancelled_run_connects_once_forwards_nothing_witness :
  let src := Endpoint 1 [ReadOk [x01] 1] [WriteOk 1 1] in
  let dst := Endpoint 2 [ReadOk [x02] 1] [WriteOk 1 1] in
  let cfg := Config 1316 true true "stats.csv" 1000 in
  let r := Round 0 (Connects dst 0) (Connects src 0) in
  (∀ t : Z, (λ _ : Z, true) t = true)
  ∧ attempts (events (thread (Route.run (λ _, true) cfg [r; r] 0))) = [0].
Proof.
  intros src dst cfg r.
  assert (∀ t : Z, (λ _ : Z, true) t = true) as Hset by reflexivity.
  split; [exact Hset|].
  exact (proj1 (proj2 (cancelled_run_connects_once_forwards_nothing (λ _, true) cfg r [r]
                         0 Hset))).
Defined.

(** Reconnecting with listener 9 in the source's slot; the source is
    accepted, then its first read fails. *)
Lemma source_listener_kept_while_reconnecting_witness :
  let src := Endpoint 1 [ReadThrows (SocketException "closed") 10] [] in
  let dst := Endpoint 2 [] [] in
  let cfg := Config 1316 false true EmptyString 0 in
  let r := Round 0 (Accepts 8 dst 0) (Accepts 7 src 0) in
  reconnect cfg = true
  ∧ src_sock (slots_left (Route.run_loop never_set cfg [r; r] (Slots (Some 9) None) 0 0))
    = Some 9.
Proof.
  intros src dst cfg r. split; [reflexivity|].
  exact (proj2 (source_listener_kept_while_reconnecting never_set cfg [r; r]
                  (Slots (Some 9) None) 0 0 9 eq_refl eq_refl)).
Defined.

(** Reconnecting; the destination refuses after 10 ticks and the flag is set
    at tick 5. *)
Lemma reconnecting_run_returns_only_when_cancelled_witness :
  let cfg := Config 1316 false true EmptyString 0 in
  let refused := Round 0 (Fails (SocketException "refused") 10)
                         (Fails (SocketException "refused") 10) in
  let x := thread (Route.run (set_at 5) cfg [refused; refused] 0) in
  reconnect cfg = true ∧ exit x = Returned ∧ set_at 5 (ends_at x) = true.
Proof.
  intros cfg refused x.
  assert (exit x = Returned) as Hret by reflexivity.
  split; [reflexivity|]. split; [exact Hret|].
  exact (reconnecting_run_returns_only_when_cancelled (set_at 5) cfg [refused; refused] 0
           eq_refl Hret).
Defined.

Lemma run_returns_after_error_or_full_service_witness :
  let cfg := Config 1316 false false EmptyString 0 in
  let refused := Round 0 (Fails (SocketException "refused") 10)
                         (Fails (SocketException "refused") 10) in
  let x := thread (Route.run never_set cfg [refused] 0) in
  exit x = Returned
  ∧ ((∃ what, last (events x) = Some (EvLog (LogError what)))
     ∨ (bidir cfg = true ∧ write_stats cfg = true ∧ last (events x) = Some EvStatsDelete)).
Proof.
  intros cfg refused x.
  assert (exit x = Returned) as Hret by reflexivity.
  split; [exact Hret|].
  exact (run_returns_after_error_or_full_service never_set cfg [refused] 0 Hret).
Defined.
